(** * dogtor: the veterinary-clinic API (src/dogtor/api)

    A shallow embedding of [views.py] and [models.py]: the bearer-token
    decorator [token_required], signup and login, and the Pet, Owner and
    Species handlers, followed by the properties the specification states
    about them and by further properties read off the code.  Left out are
    [delete_owner] and [delete_species] (the session detaches the pets of
    a deleted owner or species by setting their foreign key to NULL, which
    the non-null columns of the embedding cannot hold), the placeholder
    views [users] and [procedures], and the Record and Category tables,
    which no handler touches.

    Conventions of the embedding.
    - A handler is a computation over the database [world]; it ends with a
      returned (body, status) pair or with an uncaught Python exception.
    - A clock reading counts microseconds since the epoch, as a [datetime]
      does.  [login] and [jwt.decode] use the clock only through its Unix
      timestamp in whole seconds ([Jwt.timestamp]), the unit of the [exp]
      claim: the time arguments of the handlers are such timestamps.
    - A JSON request body is a record of optional fields; a field is [None]
      when its key is absent and otherwise carries a value of the type of
      the column it is written to.  The bodies of the two updates that copy
      every key onto the row also have the key of the id column.  JSON
      [null] and keys that name no column (among them the relationships
      [species], [owner], [records] and [pets]) are outside the embedding.
    - The database keeps what [models.py] declares on a column (primary
      key, [unique], [nullable=False]); it does not check that a foreign
      key refers to a stored row.
    - PyJWT, werkzeug's password hashing and [Config.SECRET_KEY] are not part
      of the repository: they enter as interfaces with the laws the
      libraries guarantee, and a reference instance of each is given for
      closed examples. *)

From Stdlib Require Import ZArith List String Ascii Bool Lia DecimalString.
Import ListNotations.

Local Open Scope list_scope.
Local Open Scope string_scope.
Local Open Scope Z_scope.

(** ** Python values and string operations *)

Module Py.

(** The double-quote character, for messages that quote a field name. *)
Definition dquote : string := String "034"%char EmptyString.

(** [str(n)], as an f-string formats an [int]. *)
Definition str (n : Z) : string := NilZero.string_of_int (Z.to_int n).

(** [s.startswith(prefix)]. *)
Definition startswith (s prefix : string) : bool := String.prefix prefix s.

(** [s.split(sep)] for a one-character separator: every occurrence of
    the separator cuts, so consecutive separators give empty pieces and
    the result is never the empty list. *)
Fixpoint split (sep : ascii) (s : string) : list string :=
  match s with
  | EmptyString => [EmptyString]
  | String c rest =>
      if Ascii.eqb c sep then EmptyString :: split sep rest
      else match split sep rest with
           | [] => [String c EmptyString]
           | piece :: pieces => String c piece :: pieces
           end
  end.

(** Truth value of [x] where [x] is a string or [None]: [not x] holds for
    [None] and for the empty string. *)
Definition truthy (x : option string) : bool :=
  match x with
  | None => false
  | Some s => negb (s =? "")%string
  end.

(** Uncaught exceptions that the handlers can end with. *)
Inductive exn : Set :=
| AttributeError
| KeyError
| IndexError
| NoResultFound
| MultipleResultsFound
| IntegrityError.

End Py.

(** ** models.py *)

Module User.
Record t : Set := Build
  { id : Z;
    first_name : string;
    last_name : option string;
    email : string;
    password : string }.
End User.

Module Owner.
Record t : Set := Build
  { id : Z;
    first_name : string;
    last_name : string;
    phone : string;
    mobile : string;
    email : string }.
End Owner.

Module Species.
Record t : Set := Build { id : Z; name : string }.
End Species.

Module Pet.
Record t : Set := Build
  { id : Z;
    name : string;
    owner_id : Z;
    age : Z;
    species_id : Z }.
End Pet.

(** The dictionaries built by the [to_dict] methods. *)
Record pet_dict : Set :=
  { pd_id : Z; pd_name : string; pd_owner_id : Z; pd_age : Z; pd_species : string }.

Record owner_dict : Set :=
  { od_id : Z; od_first_name : string; od_last_name : string; od_phone : string;
    od_mobile : string; od_email : string; od_pets : list pet_dict }.

Record species_dict : Set := { sd_id : Z; sd_name : string }.

(** ** The relational store and the session *)

Module Db.

Record store : Set :=
  { users : list User.t;
    owners : list Owner.t;
    species : list Species.t;
    pets : list Pet.t }.

Inductive table : Set := user_table | owner_table | species_table | pet_table.

(** What the session sends to the database. *)
Inductive statement : Set :=
| SELECT (t : table)
| COMMIT.

(** The database together with the statements executed so far, oldest
    first. *)
Record world : Set := { db : store; log : list statement }.

Definition executed (st : statement) (w : world) : world :=
  {| db := db w; log := (log w ++ [st])%list |}.

Inductive outcome (A : Type) : Type :=
| Ret (a : A)
| Raise (e : Py.exn).
Arguments Ret {A} a.
Arguments Raise {A} e.

(** Computations that read and change the world and may raise. *)
Definition M (A : Type) : Type := world -> outcome A * world.

Definition ret {A} (a : A) : M A := fun w => (Ret a, w).

Definition raise {A} (e : Py.exn) : M A := fun w => (Raise e, w).

Definition bind {A B} (m : M A) (k : A -> M B) : M B :=
  fun w =>
    match m w with
    | (Ret a, w') => k a w'
    | (Raise e, w') => (Raise e, w')
    end.

(** [db.session.execute(db.select(T).where(p))]: the rows of the table
    that satisfy [p], in table order. *)
Definition select {A} (t : table) (rows : store -> list A) (p : A -> bool)
  : M (list A) :=
  fun w => (Ret (filter p (rows (db w))), executed (SELECT t) w).

(** [.scalar()]: the first row, or [None]. *)
Definition scalar {A} (rows : list A) : option A := hd_error rows.

(** [.scalar_one()]: exactly one row is required. *)
Definition scalar_one {A} (rows : list A) : M A :=
  match rows with
  | [] => raise Py.NoResultFound
  | [r] => ret r
  | _ :: _ :: _ => raise Py.MultipleResultsFound
  end.

(** [.scalar_one_or_none()]: at most one row is allowed. *)
Definition scalar_one_or_none {A} (rows : list A) : M (option A) :=
  match rows with
  | [] => ret None
  | [r] => ret (Some r)
  | _ :: _ :: _ => raise Py.MultipleResultsFound
  end.

(** The key the database gives a new row: one more than the largest key
    of the table, 1 for an empty table. *)
Definition next_id {A} (key : A -> Z) (rows : list A) : Z :=
  1 + fold_right (fun r m => Z.max (key r) m) 0 rows.

(** [db.session.commit()] writing the given state. *)
Definition commit (s : store) : M unit :=
  fun w => (Ret tt, {| db := s; log := (log w ++ [COMMIT])%list |}).

(** SQL [lower()]: the letters A to Z become a to z. *)
Definition lower_char (c : ascii) : ascii :=
  let n := nat_of_ascii c in
  if ((65 <=? n) && (n <=? 90))%nat then ascii_of_nat (n + 32) else c.

Fixpoint lower (s : string) : string :=
  match s with
  | EmptyString => EmptyString
  | String c rest => String (lower_char c) (lower rest)
  end.

End Db.

Notation "x <- m ;; k" := (Db.bind m (fun x => k))
  (at level 61, m at next level, right associativity).

(** ** Interfaces of the libraries and of the configuration *)

(** [dogtor.config.Config]: the process-wide signing secret. *)
Class Config : Set := { SECRET_KEY : string }.

Module Jwt.

(** The claims of a token.  [login] writes both; a token from elsewhere
    may lack either. *)
Record payload : Set := { sub : option Z; exp : option Z }.

(** The signed compact serialization (HS256).  [verify token key] is
    [None] when the token is malformed or its signature does not verify
    under [key].  A token is a non-empty run of base64url characters and
    dots, hence holds no space. *)
Class Codec : Type :=
  { sign : payload -> string -> string;
    verify : string -> string -> option payload;
    verify_sign : forall p key, verify (sign p key) key = Some p;
    sign_nonempty : forall p key, sign p key <> "";
    sign_one_piece : forall p key, Py.split " " (sign p key) = [sign p key] }.

(** The Unix timestamp of a clock reading in microseconds: the whole
    seconds, rounded down.  [jwt.encode] makes it of the [datetime] it is
    given for [exp], [jwt.decode] compares [exp] with the one of the
    current time (and [exp <= now] for a whole [exp] is [exp <= timestamp
    now]). *)
Definition timestamp (clock : Z) : Z := clock / 1000000.

(** The two exceptions of [jwt.exceptions] that [token_required] catches. *)
Inductive error : Set := ExpiredSignatureError | InvalidTokenError.

(** [jwt.encode(payload, key)]. *)
Definition encode {codec : Codec} (p : payload) (key : string) : string :=
  sign p key.

(** [jwt.decode(token, key, algorithms=["HS256"])] when the timestamp of
    the current time is [now]: the signature is checked first, then [exp]
    when the payload has one; a token is expired from the second [exp] on.
    No claim is required. *)
Definition decode {codec : Codec} (token key : string) (now : Z)
  : payload + error :=
  match verify token key with
  | None => inr InvalidTokenError
  | Some p =>
      match exp p with
      | Some e => if e <=? now then inr ExpiredSignatureError else inl p
      | None => inl p
      end
  end.

End Jwt.

Module Werkzeug.

(** [werkzeug.security]: a salted one-way hash.  The salt that
    [generate_password_hash] draws is an explicit argument. *)
Class Hasher : Type :=
  { generate_password_hash : string -> string -> string;
    check_password_hash : string -> string -> bool;
    check_generate : forall password salt,
        check_password_hash (generate_password_hash password salt) password = true }.

End Werkzeug.

(** ** views.py *)

(** JSON bodies of the responses. *)
Inductive body : Set :=
| Detail (msg : string)
| TokenBody (token : string)
| ProfileBody (first_name : string) (last_name : option string) (email : string)
| PetBody (d : pet_dict)
| OwnerBody (d : owner_dict)
| SpeciesBody (d : species_dict).

(** A returned (body, status) pair; a handler that returns a bare body is
    answered with status 200. *)
Definition response : Set := body * Z.

(** Request bodies. *)
Record signup_data : Set :=
  { su_email : option string;
    su_password : option string;
    su_first_name : option string;
    su_last_name : option string }.

Record login_data : Set :=
  { lg_email : option string; lg_password : option string }.

Record pet_data : Set :=
  { pt_name : option string;
    pt_owner_id : option Z;
    pt_age : option Z;
    pt_species_id : option Z }.

Record owner_data : Set :=
  { ow_first_name : option string;
    ow_last_name : option string;
    ow_phone : option string;
    ow_mobile : option string;
    ow_email : option string }.

Record species_data : Set := { sp_name : option string }.

(** The body of [update_pet] and of [update_owner]: every key of it is
    copied onto the row, so besides the fields above the key of the id
    column counts.  A body given by its fields alone has no such key. *)
Record pet_update_data : Set :=
  { pu_fields : pet_data; pu_id : option Z }.

Definition pet_fields_only (data : pet_data) : pet_update_data :=
  {| pu_fields := data; pu_id := None |}.

Coercion pet_fields_only : pet_data >-> pet_update_data.

Record owner_update_data : Set :=
  { ou_fields : owner_data; ou_id : option Z }.

Definition owner_fields_only (data : owner_data) : owner_update_data :=
  {| ou_fields := data; ou_id := None |}.

Coercion owner_fields_only : owner_data >-> owner_update_data.

Definition is_some {A} (o : option A) : bool :=
  match o with Some _ => true | None => false end.

(** [field in data]. *)
Definition pet_data_has (data : pet_data) (field : string) : bool :=
  if (field =? "name")%string then is_some (pt_name data)
  else if (field =? "owner_id")%string then is_some (pt_owner_id data)
  else if (field =? "age")%string then is_some (pt_age data)
  else if (field =? "species_id")%string then is_some (pt_species_id data)
  else false.

Definition owner_data_has (data : owner_data) (field : string) : bool :=
  if (field =? "first_name")%string then is_some (ow_first_name data)
  else if (field =? "last_name")%string then is_some (ow_last_name data)
  else if (field =? "phone")%string then is_some (ow_phone data)
  else if (field =? "mobile")%string then is_some (ow_mobile data)
  else if (field =? "email")%string then is_some (ow_email data)
  else false.

(** [data[key]]. *)
Definition item {A} (o : option A) : Db.M A :=
  match o with
  | Some v => Db.ret v
  | None => Db.raise Py.KeyError
  end.

(** [setattr(row, key, value)] for a key of the body, nothing for a key
    that is absent. *)
Definition setattr {A} (old : A) (new : option A) : A :=
  match new with
  | Some v => v
  | None => old
  end.

Fixpoint mapM {A B} (f : A -> Db.M B) (l : list A) : Db.M (list B) :=
  match l with
  | [] => Db.ret []
  | x :: rest =>
      y <- f x ;;
      ys <- mapM f rest ;;
      Db.ret (y :: ys)
  end.

Module Views.

Import Db.

(** *** Writing rows *)

Definition with_users (s : store) (l : list User.t) : store :=
  {| users := l; owners := owners s; species := species s; pets := pets s |}.

Definition with_owners (s : store) (l : list Owner.t) : store :=
  {| users := users s; owners := l; species := species s; pets := pets s |}.

Definition with_species (s : store) (l : list Species.t) : store :=
  {| users := users s; owners := owners s; species := l; pets := pets s |}.

Definition with_pets (s : store) (l : list Pet.t) : store :=
  {| users := users s; owners := owners s; species := species s; pets := l |}.

(** [db.session.add(models.User(...)); db.session.commit()].  The table
    refuses a missing [first_name] (nullable=False) and a second row with
    the same [email] (unique=True). *)
Definition add_user (first_name last_name : option string)
           (email password : string) : M User.t :=
  fun w =>
    match first_name with
    | None => (Raise Py.IntegrityError, w)
    | Some fn =>
        if existsb (fun u => (User.email u =? email)%string) (users (db w))
        then (Raise Py.IntegrityError, w)
        else
          let user := User.Build (next_id User.id (users (db w)))
                                 fn last_name email password in
          (Ret user,
           {| db := with_users (db w) (users (db w) ++ [user])%list;
              log := (log w ++ [COMMIT])%list |})
    end.

(** [db.session.add(models.Owner(...)); db.session.commit()]; [email] is
    unique in the table. *)
Definition add_owner (first_name last_name phone mobile email : string) : M Owner.t :=
  fun w =>
    if existsb (fun r => (Owner.email r =? email)%string) (owners (db w))
    then (Raise Py.IntegrityError, w)
    else
      let owner := Owner.Build (next_id Owner.id (owners (db w)))
                               first_name last_name phone mobile email in
      (Ret owner,
       {| db := with_owners (db w) (owners (db w) ++ [owner])%list;
          log := (log w ++ [COMMIT])%list |}).

(** [db.session.add(models.Species(...)); db.session.commit()]; [name] is
    unique in the table. *)
Definition add_species (name : string) : M Species.t :=
  fun w =>
    if existsb (fun r => (Species.name r =? name)%string) (species (db w))
    then (Raise Py.IntegrityError, w)
    else
      let sp := Species.Build (next_id Species.id (species (db w))) name in
      (Ret sp,
       {| db := with_species (db w) (species (db w) ++ [sp])%list;
          log := (log w ++ [COMMIT])%list |}).

(** [db.session.add(models.Pet(...)); db.session.commit()]. *)
Definition add_pet (name : string) (owner_id age species_id : Z) : M Pet.t :=
  fun w =>
    let pet := Pet.Build (next_id Pet.id (pets (db w)))
                         name owner_id age species_id in
    (Ret pet,
     {| db := with_pets (db w) (pets (db w) ++ [pet])%list;
        log := (log w ++ [COMMIT])%list |}).

(** [db.session.commit()] after attributes of [pet] were set: the row
    with the key the pet was loaded under is rewritten.  The table refuses
    an id that another row has (primary key). *)
Definition save_pet (key : Z) (pet : Pet.t) : M unit :=
  fun w =>
    if existsb (fun r => negb (Pet.id r =? key) && (Pet.id r =? Pet.id pet))
               (pets (db w))
    then (Raise Py.IntegrityError, w)
    else
      commit (with_pets (db w)
                (map (fun r => if Pet.id r =? key then pet else r) (pets (db w))))
             w.

(** The same for an owner; besides, [email] is unique in the table. *)
Definition save_owner (key : Z) (owner : Owner.t) : M unit :=
  fun w =>
    if existsb (fun r => negb (Owner.id r =? key) && (Owner.id r =? Owner.id owner))
               (owners (db w))
    then (Raise Py.IntegrityError, w)
    else if existsb (fun r => negb (Owner.id r =? key)
                              && (Owner.email r =? Owner.email owner)%string)
                    (owners (db w))
    then (Raise Py.IntegrityError, w)
    else
      commit (with_owners (db w)
                (map (fun r => if Owner.id r =? key then owner else r)
                     (owners (db w))))
             w.

(** The same for a species; [name] is unique in the table. *)
Definition save_species (key : Z) (sp : Species.t) : M unit :=
  fun w =>
    if existsb (fun r => negb (Species.id r =? key)
                         && (Species.name r =? Species.name sp)%string)
               (species (db w))
    then (Raise Py.IntegrityError, w)
    else
      commit (with_species (db w)
                (map (fun r => if Species.id r =? key then sp else r)
                     (species (db w))))
             w.

(** [db.session.delete(row); db.session.commit()]. *)
Definition delete_pet_row (key : Z) : M unit :=
  fun w =>
    commit (with_pets (db w)
              (filter (fun r => negb (Pet.id r =? key)) (pets (db w))))
           w.

(** *** to_dict *)

(** [Pet.to_dict]: [self.species] is the species row the pet refers to,
    [None] when there is none, and [None.name] raises. *)
Definition pet_to_dict (pet : Pet.t) : M pet_dict :=
  rows <- select species_table species
            (fun s => Species.id s =? Pet.species_id pet) ;;
  match scalar rows with
  | None => raise Py.AttributeError
  | Some s =>
      ret {| pd_id := Pet.id pet;
             pd_name := Pet.name pet;
             pd_owner_id := Pet.owner_id pet;
             pd_age := Pet.age pet;
             pd_species := Species.name s |}
  end.

(** [Owner.to_dict]: [self.pets] are the pets that refer to the owner. *)
Definition owner_to_dict (owner : Owner.t) : M owner_dict :=
  rows <- select pet_table pets (fun p => Pet.owner_id p =? Owner.id owner) ;;
  dicts <- mapM pet_to_dict rows ;;
  ret {| od_id := Owner.id owner;
         od_first_name := Owner.first_name owner;
         od_last_name := Owner.last_name owner;
         od_phone := Owner.phone owner;
         od_mobile := Owner.mobile owner;
         od_email := Owner.email owner;
         od_pets := dicts |}.

Definition species_to_dict (sp : Species.t) : species_dict :=
  {| sd_id := Species.id sp; sd_name := Species.name sp |}.

(** *** The handlers *)

Section Handlers.

Context {config : Config} {codec : Jwt.Codec} {hasher : Werkzeug.Hasher}.

(** What the first half of [wrapper] (the header checks) ends with. *)
Inductive bearer : Set :=
| Rejected (r : response)
| Bearer (token : string)
| Crashed (e : Py.exn).

Definition prefix : string := "Bearer ".

Definition missing_header : string :=
  "Missing " ++ Py.dquote ++ "Authorization" ++ Py.dquote ++ " header".

(** [wrapper], from reading the header to the token test:
    [authorization] is [request.headers.get("Authorization")]. *)
Definition wrapper_token (authorization : option string) : bearer :=
  match authorization with
  | None => Rejected (Detail missing_header, 401)
  | Some a =>
      if negb (Py.truthy (Some a)) then Rejected (Detail missing_header, 401)
      else if negb (Py.startswith a prefix)
      then Rejected (Detail "Invalid token prefix", 401)
      else
        match nth_error (Py.split " " a) 1 with
        | None => Crashed Py.IndexError
        | Some token =>
            if negb (Py.truthy (Some token))
            then Rejected (Detail "Missing token", 401)
            else Bearer token
        end
  end.

(** The lookup of the acting user: [scalar_one] over the users whose id
    is the subject of the token. *)
Definition lookup_user (uid : Z) : M User.t :=
  rows <- select user_table users (fun u => User.id u =? uid) ;;
  scalar_one rows.

(** [wrapper], from [jwt.decode] on.  [func] receives [request.user]. *)
Definition wrapper_verify (func : User.t -> M response)
           (token : string) (now : Z) : M response :=
  match Jwt.decode token SECRET_KEY now with
  | inr Jwt.ExpiredSignatureError => ret (Detail "Token expired", 401)
  | inr Jwt.InvalidTokenError => ret (Detail "Invalid token", 401)
  | inl payload =>
      uid <- item (Jwt.sub payload) ;;
      user <- lookup_user uid ;;
      func user
  end.

Definition token_required (func : User.t -> M response)
           (authorization : option string) (now : Z) : M response :=
  match wrapper_token authorization with
  | Rejected r => ret r
  | Crashed e => raise e
  | Bearer token => wrapper_verify func token now
  end.

(** The functions below are the bodies that [token_required] wraps. *)

Definition profile (user : User.t) : M response :=
  ret (ProfileBody (User.first_name user) (User.last_name user)
                   (User.email user), 200).

Definition pet_required_fields : list string :=
  ["name"; "owner_id"; "age"; "species_id"].

Definition owner_required_fields : list string :=
  ["first_name"; "last_name"; "phone"; "mobile"; "email"].

Definition field_is_required (field : string) : response :=
  (Detail (Py.dquote ++ field ++ Py.dquote ++ " field is required"), 400).

Definition create_pet (data : pet_data) : M response :=
  match find (fun field => negb (pet_data_has data field)) pet_required_fields with
  | Some field => ret (field_is_required field)
  | None =>
      pet_name <- item (pt_name data) ;;
      owner_id <- item (pt_owner_id data) ;;
      species_id <- item (pt_species_id data) ;;
      rows <- select pet_table pets
                (fun p => (lower (Pet.name p) =? lower pet_name)%string
                          && (Pet.owner_id p =? owner_id)
                          && (Pet.species_id p =? species_id)) ;;
      match scalar rows with
      | Some _ =>
          ret (Detail ("Pet " ++ Py.dquote ++ pet_name ++ Py.dquote
                              ++ " already exists"), 409)
      | None =>
          age <- item (pt_age data) ;;
          pet <- add_pet pet_name owner_id age species_id ;;
          d <- pet_to_dict pet ;;
          ret (PetBody d, 201)
      end
  end.

(** [update_pet]: the loop [for key, value in data.items(): setattr(pet,
    key, value)] writes the four fields, all present at that point, and
    the id when the body has that key. *)
Definition update_pet (pet_id : Z) (data : pet_update_data) : M response :=
  rows <- select pet_table pets (fun p => Pet.id p =? pet_id) ;;
  match scalar rows with
  | None => ret (Detail ("Pet with id " ++ Py.str pet_id ++ " not found"), 404)
  | Some pet =>
      match find (fun field => negb (pet_data_has (pu_fields data) field))
                 pet_required_fields with
      | Some field => ret (field_is_required field)
      | None =>
          let pet' :=
            Pet.Build (setattr (Pet.id pet) (pu_id data))
                      (setattr (Pet.name pet) (pt_name (pu_fields data)))
                      (setattr (Pet.owner_id pet) (pt_owner_id (pu_fields data)))
                      (setattr (Pet.age pet) (pt_age (pu_fields data)))
                      (setattr (Pet.species_id pet) (pt_species_id (pu_fields data))) in
          _ <- save_pet (Pet.id pet) pet' ;;
          d <- pet_to_dict pet' ;;
          ret (PetBody d, 200)
      end
  end.

Definition delete_pet (pet_id : Z) : M response :=
  rows <- select pet_table pets (fun p => Pet.id p =? pet_id) ;;
  match scalar rows with
  | None => ret (Detail ("pet with id " ++ Py.str pet_id ++ " not found"), 404)
  | Some pet =>
      _ <- delete_pet_row (Pet.id pet) ;;
      ret (Detail ("pet with id " ++ Py.str pet_id ++ " deleted"), 200)
  end.

(** [update_owner]: the same loop over the five fields and the id. *)
Definition update_owner (owner_id : Z) (data : owner_update_data) : M response :=
  rows <- select owner_table owners (fun o => Owner.id o =? owner_id) ;;
  match scalar rows with
  | None =>
      ret (Detail ("owner with id " ++ Py.str owner_id ++ " does not exist"), 404)
  | Some owner =>
      match find (fun attr => negb (owner_data_has (ou_fields data) attr))
                 owner_required_fields with
      | Some attr => ret (field_is_required attr)
      | None =>
          let owner' :=
            Owner.Build (setattr (Owner.id owner) (ou_id data))
                        (setattr (Owner.first_name owner) (ow_first_name (ou_fields data)))
                        (setattr (Owner.last_name owner) (ow_last_name (ou_fields data)))
                        (setattr (Owner.phone owner) (ow_phone (ou_fields data)))
                        (setattr (Owner.mobile owner) (ow_mobile (ou_fields data)))
                        (setattr (Owner.email owner) (ow_email (ou_fields data))) in
          _ <- save_owner (Owner.id owner) owner' ;;
          d <- owner_to_dict owner' ;;
          ret (OwnerBody d, 200)
      end
  end.

Definition name_is_required : response :=
  (Detail ("Field " ++ Py.dquote ++ "name" ++ Py.dquote ++ " is required"), 400).

(** [update_species] assigns to [species.name] without testing the row
    it looked up: on [None] the assignment raises. *)
Definition update_species (species_id : Z) (data : species_data) : M response :=
  if negb (is_some (sp_name data)) then ret name_is_required
  else
    rows <- select species_table species (fun s => Species.id s =? species_id) ;;
    match scalar rows with
    | None => raise Py.AttributeError
    | Some sp =>
        name <- item (sp_name data) ;;
        let sp' := Species.Build (Species.id sp) name in
        _ <- save_species (Species.id sp) sp' ;;
        ret (SpeciesBody (species_to_dict sp'), 200)
    end.

(** [signup]; [salt] is the salt that [generate_password_hash] draws.
    [generate_password_hash(None)] raises on [None.encode]. *)
Definition signup (data : signup_data) (salt : string) : M response :=
  if negb (Py.truthy (su_email data)) then ret (Detail "email is required", 400)
  else
    email <- item (su_email data) ;;
    rows <- select user_table users (fun u => (User.email u =? email)%string) ;;
    user_exists <- scalar_one_or_none rows ;;
    match user_exists with
    | Some _ => ret (Detail "email already taken", 400)
    | None =>
        match su_password data with
        | None => raise Py.AttributeError
        | Some password =>
            _ <- add_user (su_first_name data) (su_last_name data) email
                   (Werkzeug.generate_password_hash password salt) ;;
            ret (Detail "user created successfully", 201)
        end
    end.

(** [login] when the timestamp of [datetime.utcnow()] is [now]: of the
    expiry [datetime.utcnow() + timedelta(minutes=30)] the token keeps the
    timestamp, which is [now] plus 1800 seconds. *)
Definition login (data : login_data) (now : Z) : M response :=
  if negb (Py.truthy (lg_email data)) || negb (Py.truthy (lg_password data))
  then ret (Detail "missing email or password", 400)
  else
    email <- item (lg_email data) ;;
    password <- item (lg_password data) ;;
    rows <- select user_table users (fun u => (User.email u =? email)%string) ;;
    user <- scalar_one_or_none rows ;;
    match user with
    | None => ret (Detail "invalid email or password", 401)
    | Some u =>
        if negb (Werkzeug.check_password_hash (User.password u) password)
        then ret (Detail "invalid email or password", 401)
        else
          let token :=
            Jwt.encode {| Jwt.sub := Some (User.id u);
                          Jwt.exp := Some (now + 30 * 60) |} SECRET_KEY in
          ret (TokenBody token, 200)
    end.

(** The handlers that only read.  [get_pets], [get_owners] and
    [get_all_species] return a bare list, answered with status 200. *)

Definition get_pets : M (list pet_dict) :=
  rows <- select pet_table pets (fun _ => true) ;;
  mapM pet_to_dict rows.

Definition get_pet (pet_id : Z) : M response :=
  rows <- select pet_table pets (fun p => Pet.id p =? pet_id) ;;
  match scalar rows with
  | None => ret (Detail "Pet not found", 404)
  | Some pet =>
      d <- pet_to_dict pet ;;
      ret (PetBody d, 200)
  end.

Definition get_owners : M (list owner_dict) :=
  rows <- select owner_table owners (fun _ => true) ;;
  mapM owner_to_dict rows.

Definition get_owner (owner_id : Z) : M response :=
  rows <- select owner_table owners (fun o => owner_id =? Owner.id o) ;;
  match scalar rows with
  | None => ret (Detail "Owner not found", 404)
  | Some owner =>
      d <- owner_to_dict owner ;;
      ret (OwnerBody d, 200)
  end.

Definition get_all_species : M (list species_dict) :=
  rows <- select species_table species (fun _ => true) ;;
  ret (map species_to_dict rows).

Definition get_one_species (species_id : Z) : M response :=
  rows <- select species_table species (fun s => Species.id s =? species_id) ;;
  match scalar rows with
  | None => ret (Detail "Species not found", 404)
  | Some sp => ret (SpeciesBody (species_to_dict sp), 200)
  end.

Definition create_owner (data : owner_data) : M response :=
  match find (fun attr => negb (owner_data_has data attr)) owner_required_fields with
  | Some attr => ret (field_is_required attr)
  | None =>
      email <- item (ow_email data) ;;
      rows <- select owner_table owners
                (fun o => (lower (Owner.email o) =? lower email)%string) ;;
      match scalar rows with
      | Some _ =>
          ret (Detail ("owner with email " ++ email ++ " already exists"), 409)
      | None =>
          first_name <- item (ow_first_name data) ;;
          last_name <- item (ow_last_name data) ;;
          phone <- item (ow_phone data) ;;
          mobile <- item (ow_mobile data) ;;
          owner <- add_owner first_name last_name phone mobile email ;;
          d <- owner_to_dict owner ;;
          ret (OwnerBody d, 201)
      end
  end.

Definition create_species (data : species_data) : M response :=
  if negb (is_some (sp_name data)) then ret name_is_required
  else
    name <- item (sp_name data) ;;
    rows <- select species_table species
              (fun s => (lower (Species.name s) =? lower name)%string) ;;
    match scalar rows with
    | Some _ => ret (Detail "Species already exists", 409)
    | None =>
        sp <- add_species name ;;
        ret (SpeciesBody (species_to_dict sp), 201)
    end.

End Handlers.

End Views.

(** ** Facts about the string operations *)

(** [c in s] for a character [c]. *)
Fixpoint contains (c : ascii) (s : string) : bool :=
  match s with
  | EmptyString => false
  | String d rest => Ascii.eqb d c || contains c rest
  end.

(** The part of [s] before the first occurrence of [c], all of [s] when
    there is none. *)
Fixpoint before (c : ascii) (s : string) : string :=
  match s with
  | EmptyString => EmptyString
  | String d rest => if Ascii.eqb d c then EmptyString else String d (before c rest)
  end.

Lemma split_head (c : ascii) (s : string) :
  exists pieces, Py.split c s = before c s :: pieces.
Proof.
  induction s as [|d rest [pieces IH]]; simpl.
  - now exists [].
  - destruct (Ascii.eqb d c).
    + now exists (Py.split c rest).
    + rewrite IH. now exists pieces.
Qed.

Lemma split_without_separator (c : ascii) (s : string) :
  contains c s = false -> Py.split c s = [s].
Proof.
  induction s as [|d rest IH]; simpl; intros Hc.
  - reflexivity.
  - apply orb_false_iff in Hc as [Hd Hrest].
    rewrite Hd, (IH Hrest). reflexivity.
Qed.

Lemma before_without_separator (c : ascii) (s : string) :
  contains c s = false -> before c s = s.
Proof.
  induction s as [|d rest IH]; simpl; intros Hc.
  - reflexivity.
  - apply orb_false_iff in Hc as [Hd Hrest].
    rewrite Hd, (IH Hrest). reflexivity.
Qed.

Lemma contains_append (c : ascii) (s1 s2 : string) :
  contains c (s1 ++ s2) = contains c s1 || contains c s2.
Proof.
  induction s1 as [|d rest IH]; simpl.
  - reflexivity.
  - rewrite IH. apply orb_assoc.
Qed.

Lemma one_piece_without_separator (c : ascii) (s : string) :
  Py.split c s = [s] -> contains c s = false.
Proof.
  induction s as [|d rest IH]; simpl.
  - reflexivity.
  - destruct (Ascii.eqb d c); [discriminate|].
    destruct (Py.split c rest) as [|piece pieces] eqn:E.
    + destruct (split_head c rest) as [ps Hps]. congruence.
    + intros H. injection H as Hpiece Hpieces. subst. now apply IH.
Qed.

Lemma prefix_append (s1 s2 : string) : String.prefix s1 (s1 ++ s2) = true.
Proof.
  induction s1 as [|d rest IH]; simpl.
  - now destruct s2.
  - destruct (ascii_dec d d); [exact IH | congruence].
Qed.

(** ** Reference instances of the interfaces

    They stand in for HS256 and for the salted hash where a closed example
    needs to run: claims are written in binary and the signature is the key
    with its spaces replaced; the hash keeps the password in front of the
    salt. *)

Module Reference.

Fixpoint bits (p : positive) : string :=
  match p with
  | xH => "."
  | xO q => String "0" (bits q)
  | xI q => String "1" (bits q)
  end.

Fixpoint read_bits (s : string) : option (positive * string) :=
  match s with
  | String "." rest => Some (xH, rest)
  | String "0" rest =>
      match read_bits rest with
      | Some (q, rest') => Some (xO q, rest')
      | None => None
      end
  | String "1" rest =>
      match read_bits rest with
      | Some (q, rest') => Some (xI q, rest')
      | None => None
      end
  | _ => None
  end.

Definition write_claim (c : option Z) : string :=
  match c with
  | None => "n"
  | Some Z0 => "z"
  | Some (Zpos p) => String "+" (bits p)
  | Some (Zneg p) => String "-" (bits p)
  end.

Definition read_claim (s : string) : option (option Z * string) :=
  match s with
  | String "n" rest => Some (None, rest)
  | String "z" rest => Some (Some 0, rest)
  | String "+" rest =>
      match read_bits rest with
      | Some (p, rest') => Some (Some (Zpos p), rest')
      | None => None
      end
  | String "-" rest =>
      match read_bits rest with
      | Some (p, rest') => Some (Some (Zneg p), rest')
      | None => None
      end
  | _ => None
  end.

Fixpoint signature (key : string) : string :=
  match key with
  | EmptyString => EmptyString
  | String c rest => String (if Ascii.eqb c " " then "_"%char else c) (signature rest)
  end.

Definition sign (p : Jwt.payload) (key : string) : string :=
  write_claim (Jwt.sub p) ++ write_claim (Jwt.exp p) ++ signature key.

Definition verify (token key : string) : option Jwt.payload :=
  match read_claim token with
  | Some (s, rest) =>
      match read_claim rest with
      | Some (e, sig) =>
          if (sig =? signature key)%string
          then Some {| Jwt.sub := s; Jwt.exp := e |}
          else None
      | None => None
      end
  | None => None
  end.

Lemma read_bits_bits (p : positive) (rest : string) :
  read_bits (bits p ++ rest) = Some (p, rest).
Proof.
  induction p as [q IH|q IH|]; simpl; try rewrite IH; reflexivity.
Qed.

Lemma read_write_claim (c : option Z) (rest : string) :
  read_claim (write_claim c ++ rest) = Some (c, rest).
Proof.
  destruct c as [[|p|p]|]; simpl; try rewrite read_bits_bits; reflexivity.
Qed.

Lemma bits_no_space (p : positive) : contains " " (bits p) = false.
Proof. induction p; simpl; auto. Qed.

Lemma write_claim_no_space (c : option Z) : contains " " (write_claim c) = false.
Proof.
  destruct c as [[|p|p]|]; simpl; try apply bits_no_space; reflexivity.
Qed.

Lemma signature_no_space (key : string) : contains " " (signature key) = false.
Proof.
  induction key as [|c rest IH]; simpl; [reflexivity|].
  rewrite IH, orb_false_r.
  destruct (Ascii.eqb c " ") eqn:E; [reflexivity | exact E].
Qed.

Lemma verify_sign (p : Jwt.payload) (key : string) :
  verify (sign p key) key = Some p.
Proof.
  unfold verify, sign.
  rewrite read_write_claim, read_write_claim, String.eqb_refl.
  now destruct p.
Qed.

Lemma sign_nonempty (p : Jwt.payload) (key : string) : sign p key <> "".
Proof.
  unfold sign. destruct (Jwt.sub p) as [[|q|q]|]; simpl; discriminate.
Qed.

Lemma sign_one_piece (p : Jwt.payload) (key : string) :
  Py.split " " (sign p key) = [sign p key].
Proof.
  apply split_without_separator. unfold sign.
  now rewrite !contains_append, !write_claim_no_space, signature_no_space.
Qed.

Definition codec : Jwt.Codec :=
  {| Jwt.sign := sign;
     Jwt.verify := verify;
     Jwt.verify_sign := verify_sign;
     Jwt.sign_nonempty := sign_nonempty;
     Jwt.sign_one_piece := sign_one_piece |}.

Definition generate_password_hash (password salt : string) : string :=
  password ++ "$" ++ salt.

Definition check_password_hash (pwhash password : string) : bool :=
  String.prefix (password ++ "$") pwhash.

Lemma check_generate (password salt : string) :
  check_password_hash (generate_password_hash password salt) password = true.
Proof.
  unfold check_password_hash, generate_password_hash.
  replace (password ++ "$" ++ salt)%string with ((password ++ "$") ++ salt)%string.
  - apply prefix_append.
  - induction password as [|c rest IH]; simpl; [reflexivity | now rewrite IH].
Qed.

Definition hasher : Werkzeug.Hasher :=
  {| Werkzeug.generate_password_hash := generate_password_hash;
     Werkzeug.check_password_hash := check_password_hash;
     Werkzeug.check_generate := check_generate |}.

Definition config : Config := {| SECRET_KEY := "clinic secret" |}.

Definition empty_store : Db.store :=
  {| Db.users := []; Db.owners := []; Db.species := []; Db.pets := [] |}.

Definition fresh (s : Db.store) : Db.world := {| Db.db := s; Db.log := [] |}.

End Reference.

(** ** Properties *)

Import Db Views.

(** *** The header checks of [token_required] *)

Lemma split_bearer (t : string) :
  Py.split " " ("Bearer " ++ t) = "Bearer" :: Py.split " " t.
Proof. reflexivity. Qed.

(** For a header that starts with the prefix, the token is the text
    between the first and the second space of the header. *)
Lemma bearer_header (t : string) :
  wrapper_token (Some ("Bearer " ++ t)) =
  if (before " " t =? "")%string
  then Rejected (Detail "Missing token", 401)
  else Bearer (before " " t).
Proof.
  unfold wrapper_token.
  change (Py.truthy (Some ("Bearer " ++ t))) with true.
  unfold Py.startswith, prefix. rewrite (prefix_append "Bearer " t).
  cbn [negb]. rewrite split_bearer.
  destruct (split_head " " t) as [pieces ->]. cbn [nth_error Py.truthy].
  now destruct (before " " t =? "")%string.
Qed.

Lemma before_nonempty (c : ascii) (t : string) :
  t <> "" -> contains c t = false -> (before c t =? "")%string = false.
Proof.
  intros Ht Hc. rewrite before_without_separator by exact Hc.
  now apply String.eqb_neq.
Qed.

Lemma bearer_header_whole (t : string) :
  t <> "" -> contains " " t = false -> wrapper_token (Some ("Bearer " ++ t)) = Bearer t.
Proof.
  intros Ht Hc. rewrite bearer_header, before_nonempty by assumption.
  now rewrite before_without_separator.
Qed.

(** C3, as stated, fails: a token part that begins with a space is answered
    "Missing token", and of a token part that contains a space only the
    text before that space reaches verification. *)
Lemma bearer_token_cut_at_space :
  (" x" <> "" /\
   wrapper_token (Some ("Bearer " ++ " x")) = Rejected (Detail "Missing token", 401))
  /\
  ("a b" <> "" /\
   wrapper_token (Some ("Bearer " ++ "a b")) = Bearer "a" /\ "a" <> "a b").
Proof. repeat split; try discriminate; reflexivity. Qed.

(** C3, amended: for every header made of the prefix "Bearer " and a
    non-empty [t] that contains no space, the header checks do not answer
    "Missing token" (nor anything else): the token handed to verification
    is exactly [t], so the middleware continues with [wrapper_verify] on
    [t]. *)
Theorem bearer_token_without_space
        {config : Config} {codec : Jwt.Codec}
        (func : User.t -> M response) (t : string) (now : Z) (w : world) :
  t <> "" ->
  contains " " t = false ->
  wrapper_token (Some ("Bearer " ++ t)) = Bearer t /\
  token_required func (Some ("Bearer " ++ t)) now w = wrapper_verify func t now w.
Proof.
  intros Ht Hc. pose proof (bearer_header_whole t Ht Hc) as Hb.
  split; [exact Hb|]. unfold token_required. now rewrite Hb.
Qed.

Lemma bearer_token_without_space_witness :
  wrapper_token (Some ("Bearer " ++ "abc.def")) = Bearer "abc.def" /\
  @token_required Reference.config Reference.codec profile
    (Some ("Bearer " ++ "abc.def")) 0 (Reference.fresh Reference.empty_store) =
  @wrapper_verify Reference.config Reference.codec profile "abc.def" 0
    (Reference.fresh Reference.empty_store).
Proof.
  apply (@bearer_token_without_space Reference.config Reference.codec).
  - discriminate.
  - reflexivity.
Defined.

(** C9, as stated, fails for a header that is present and empty: it does
    not start with "Bearer ", yet it is answered with the message of a
    missing header. *)
Lemma empty_header_answered_as_missing :
  Py.startswith "" "Bearer " = false /\
  @token_required Reference.config Reference.codec profile (Some "") 0
    (Reference.fresh Reference.empty_store) =
  (Ret (Detail missing_header, 401), Reference.fresh Reference.empty_store).
Proof. split; reflexivity. Qed.

(** C9, amended: a request with no Authorization header is answered 401
    and the world, hence the log of executed statements, is as before: no
    store read.  A request whose Authorization header is not empty and does
    not start with "Bearer " is answered 401 with a message that differs
    from the missing-header message, again with the world as before.  (An
    empty header value is answered like a missing header.) *)
Theorem rejected_before_any_read
        {config : Config} {codec : Jwt.Codec}
        (func : User.t -> M response) (now : Z) (w : world) :
  token_required func None now w = (Ret (Detail missing_header, 401), w) /\
  forall a : string,
    a <> "" ->
    Py.startswith a "Bearer " = false ->
    token_required func (Some a) now w = (Ret (Detail "Invalid token prefix", 401), w)
    /\ "Invalid token prefix" <> missing_header.
Proof.
  split; [reflexivity|]. intros a Ha Hp. split; [|discriminate].
  unfold token_required, wrapper_token, prefix. cbn [Py.truthy].
  apply String.eqb_neq in Ha. now rewrite Ha, Hp.
Qed.

Lemma rejected_before_any_read_witness :
  @token_required Reference.config Reference.codec profile (Some "Basic abc") 0
    (Reference.fresh Reference.empty_store) =
  (Ret (Detail "Invalid token prefix", 401), Reference.fresh Reference.empty_store)
  /\ "Invalid token prefix" <> missing_header.
Proof.
  apply (@rejected_before_any_read Reference.config Reference.codec).
  - discriminate.
  - reflexivity.
Defined.

(** *** Looking rows up *)

Lemma scalar_filter_absent {A} (p : A -> bool) (rows : list A) :
  (forall r, In r rows -> p r = false) -> scalar (filter p rows) = None.
Proof.
  induction rows as [|r rest IH]; simpl; intros Hp.
  - reflexivity.
  - rewrite (Hp r) by now left. apply IH. intros r' Hr'. apply Hp. now right.
Qed.

Lemma scalar_filter_present {A} (p : A -> bool) (rows : list A) (r : A) :
  In r rows -> p r = true -> exists r', scalar (filter p rows) = Some r'.
Proof.
  induction rows as [|r0 rest IH]; simpl; intros Hin Hp.
  - contradiction.
  - destruct (p r0) eqn:E.
    + now exists r0.
    + destruct Hin as [->|Hin]; [congruence | now apply IH].
Qed.

Lemma scalar_none_filter {A} (p : A -> bool) (rows : list A) (r : A) :
  scalar (filter p rows) = None -> In r rows -> p r = false.
Proof.
  intros Hs Hin. destruct (p r) eqn:E; [|reflexivity].
  destruct (scalar_filter_present p rows r Hin E) as [r' Hr']. congruence.
Qed.

(** *** Rows that are not there: update and delete *)

(** A pet id is absent when no row of the pet table carries it. *)
Definition pet_absent (pet_id : Z) (s : store) : Prop :=
  forall p, In p (pets s) -> Pet.id p <> pet_id.

Definition owner_absent (owner_id : Z) (s : store) : Prop :=
  forall o, In o (owners s) -> Owner.id o <> owner_id.

Definition species_absent (species_id : Z) (s : store) : Prop :=
  forall sp, In sp (species s) -> Species.id sp <> species_id.

Lemma no_pet_selected (pet_id : Z) (s : store) :
  pet_absent pet_id s -> scalar (filter (fun p => Pet.id p =? pet_id) (pets s)) = None.
Proof.
  intros H. apply scalar_filter_absent. intros p Hp. apply Z.eqb_neq. now apply H.
Qed.

Lemma no_owner_selected (owner_id : Z) (s : store) :
  owner_absent owner_id s ->
  scalar (filter (fun o => Owner.id o =? owner_id) (owners s)) = None.
Proof.
  intros H. apply scalar_filter_absent. intros o Ho. apply Z.eqb_neq. now apply H.
Qed.

Lemma no_species_selected (species_id : Z) (s : store) :
  species_absent species_id s ->
  scalar (filter (fun sp => Species.id sp =? species_id) (species s)) = None.
Proof.
  intros H. apply scalar_filter_absent. intros sp Hsp. apply Z.eqb_neq. now apply H.
Qed.

(** [update_pet] on an absent id: 404, no row touched. *)
Lemma update_pet_not_found (pet_id : Z) (data : pet_update_data) (w : world) :
  pet_absent pet_id (db w) ->
  update_pet pet_id data w =
  (Ret (Detail ("Pet with id " ++ Py.str pet_id ++ " not found"), 404),
   executed (SELECT pet_table) w).
Proof.
  intros H. unfold update_pet, bind, select. cbn [db executed].
  now rewrite (no_pet_selected pet_id (db w) H).
Qed.

(** [update_owner] on an absent id: 404, no row touched. *)
Lemma update_owner_not_found (owner_id : Z) (data : owner_update_data) (w : world) :
  owner_absent owner_id (db w) ->
  update_owner owner_id data w =
  (Ret (Detail ("owner with id " ++ Py.str owner_id ++ " does not exist"), 404),
   executed (SELECT owner_table) w).
Proof.
  intros H. unfold update_owner, bind, select. cbn [db executed].
  now rewrite (no_owner_selected owner_id (db w) H).
Qed.

(** [update_species] on an absent id, with the name field present, ends
    with an uncaught [AttributeError] instead of a 404 response. *)
Lemma update_species_not_found_raises
      (species_id : Z) (name : string) (w : world) :
  species_absent species_id (db w) ->
  update_species species_id {| sp_name := Some name |} w =
  (Raise Py.AttributeError, executed (SELECT species_table) w).
Proof.
  intros H. unfold update_species, bind, select. cbn [sp_name is_some negb db executed].
  now rewrite (no_species_selected species_id (db w) H).
Qed.

(** C1 holds for Pet and Owner and fails for Species.  With an empty
    species table, [update_species] for id 1 and a body that carries a name
    does not answer 404: the handler ends with an uncaught
    [AttributeError], where [update_pet] and [update_owner] on the same
    store answer 404.  The store is unchanged in all three. *)
Theorem update_species_absent_id_raises :
  let w := Reference.fresh Reference.empty_store in
  species_absent 1 (db w) /\
  update_species 1 {| sp_name := Some "Feline" |} w =
    (Raise Py.AttributeError, executed (SELECT species_table) w) /\
  update_pet 1 {| pt_name := Some "Rex"; pt_owner_id := Some 1;
                  pt_age := Some 3; pt_species_id := Some 1 |} w =
    (Ret (Detail "Pet with id 1 not found", 404), executed (SELECT pet_table) w) /\
  update_owner 1 {| ow_first_name := Some "Ann"; ow_last_name := Some "Lee";
                    ow_phone := Some "1"; ow_mobile := Some "2";
                    ow_email := Some "ann@example.org" |} w =
    (Ret (Detail "owner with id 1 does not exist", 404),
     executed (SELECT owner_table) w).
Proof.
  cbv zeta. split; [intros sp []|]. repeat split; reflexivity.
Qed.

(** C8: for every pet id that no row of the pet table carries,
    [delete_pet] answers 404 and the store after the call is the store
    before it; the only statement executed is the lookup. *)
Theorem delete_pet_not_found (pet_id : Z) (w : world) :
  pet_absent pet_id (db w) ->
  exists w',
    delete_pet pet_id w =
      (Ret (Detail ("pet with id " ++ Py.str pet_id ++ " not found"), 404), w')
    /\ db w' = db w
    /\ log w' = (log w ++ [SELECT pet_table])%list.
Proof.
  intros H. exists (executed (SELECT pet_table) w).
  unfold delete_pet, bind, select. cbn [db log executed].
  now rewrite (no_pet_selected pet_id (db w) H).
Qed.

Lemma delete_pet_not_found_witness :
  let w := Reference.fresh
             (with_pets Reference.empty_store [Pet.Build 1 "Rex" 1 3 2]) in
  exists w',
    delete_pet 7 w = (Ret (Detail "pet with id 7 not found", 404), w')
    /\ db w' = db w
    /\ log w' = (log w ++ [SELECT pet_table])%list.
Proof.
  cbv zeta. apply (delete_pet_not_found 7).
  intros p [<-|[]]. discriminate.
Defined.

(** *** Uniqueness of pets on creation *)

(** The stored pet [p] has the triple (name, owner, species), the name
    compared without regard to case. *)
Definition same_triple (name : string) (owner_id species_id : Z) (p : Pet.t) : Prop :=
  lower (Pet.name p) = lower name /\
  Pet.owner_id p = owner_id /\
  Pet.species_id p = species_id.

Definition same_tripleb (name : string) (owner_id species_id : Z) (p : Pet.t) : bool :=
  (lower (Pet.name p) =? lower name)%string
  && (Pet.owner_id p =? owner_id)
  && (Pet.species_id p =? species_id).

Lemma same_tripleb_spec (name : string) (owner_id species_id : Z) (p : Pet.t) :
  same_tripleb name owner_id species_id p = true <->
  same_triple name owner_id species_id p.
Proof.
  unfold same_tripleb, same_triple.
  rewrite !andb_true_iff, String.eqb_eq, !Z.eqb_eq. tauto.
Qed.

(** [create_pet] for a body that carries the four fields of a pet. *)
Definition new_pet (name : string) (owner_id age species_id : Z) : pet_data :=
  {| pt_name := Some name;
     pt_owner_id := Some owner_id;
     pt_age := Some age;
     pt_species_id := Some species_id |}.

Lemma create_pet_unfold (name : string) (owner_id age species_id : Z) (w : world) :
  create_pet (new_pet name owner_id age species_id) w =
  match scalar (filter (same_tripleb name owner_id species_id) (pets (db w))) with
  | Some _ =>
      (Ret (Detail ("Pet " ++ Py.dquote ++ name ++ Py.dquote ++ " already exists"), 409),
       executed (SELECT pet_table) w)
  | None =>
      (pet <- add_pet name owner_id age species_id ;;
       d <- pet_to_dict pet ;;
       ret (PetBody d, 201)) (executed (SELECT pet_table) w)
  end.
Proof.
  unfold create_pet, new_pet. cbn [find pet_required_fields pet_data_has
    String.eqb Ascii.eqb Bool.eqb is_some negb pt_name pt_owner_id pt_age pt_species_id].
  unfold bind at 1 2 3 4. unfold item, ret, select. cbn [db executed].
  change (fun p : Pet.t =>
            (lower (Pet.name p) =? lower name)%string
            && (Pet.owner_id p =? owner_id) && (Pet.species_id p =? species_id))
    with (same_tripleb name owner_id species_id).
  destruct (scalar (filter (same_tripleb name owner_id species_id) (pets (db w))));
    reflexivity.
Qed.

(** C7: let the store hold a pet [p].  Creating a pet with the owner and
    the species of [p] and a name equal to the name of [p] up to case is
    answered 409 and inserts no row: the store is as before.  And whenever
    [create_pet] answers 201, no stored pet had the triple of the new
    one. *)
Theorem create_pet_conflict
        (name : string) (owner_id age species_id : Z) (w : world) :
  (forall p,
      In p (pets (db w)) ->
      same_triple name owner_id species_id p ->
      exists w',
        create_pet (new_pet name owner_id age species_id) w =
          (Ret (Detail ("Pet " ++ Py.dquote ++ name ++ Py.dquote ++ " already exists"),
                409), w')
        /\ db w' = db w)
  /\
  (forall b w',
      create_pet (new_pet name owner_id age species_id) w = (Ret (b, 201), w') ->
      forall p, In p (pets (db w)) -> ~ same_triple name owner_id species_id p).
Proof.
  split.
  - intros p Hin Hsame. exists (executed (SELECT pet_table) w).
    rewrite create_pet_unfold.
    apply same_tripleb_spec in Hsame.
    destruct (scalar_filter_present _ _ p Hin Hsame) as [r ->]. now split.
  - intros b w' Hcreate p Hin Hsame.
    rewrite create_pet_unfold in Hcreate.
    destruct (scalar (filter (same_tripleb name owner_id species_id) (pets (db w))))
      as [r|] eqn:Hs.
    + discriminate Hcreate.
    + apply same_tripleb_spec in Hsame.
      pose proof (scalar_none_filter _ _ p Hs Hin). congruence.
Qed.

Definition rex_store : store :=
  {| users := [];
     owners := [Owner.Build 1 "Ann" "Lee" "1" "2" "ann@example.org"];
     species := [Species.Build 2 "Canine"];
     pets := [Pet.Build 1 "Rex" 1 3 2] |}.

Lemma create_pet_conflict_witness :
  (exists w',
      create_pet (new_pet "REX" 1 5 2) (Reference.fresh rex_store) =
        (Ret (Detail ("Pet " ++ Py.dquote ++ "REX" ++ Py.dquote ++ " already exists"),
              409), w')
      /\ db w' = rex_store)
  /\
  (forall p, In p (pets rex_store) -> ~ same_triple "Bella" 1 2 p).
Proof.
  split.
  - apply (proj1 (create_pet_conflict "REX" 1 5 2 (Reference.fresh rex_store))
                 (Pet.Build 1 "Rex" 1 3 2)).
    + now left.
    + repeat split.
  - apply (proj2 (create_pet_conflict "Bella" 1 4 2 (Reference.fresh rex_store))
                 (PetBody {| pd_id := 2; pd_name := "Bella"; pd_owner_id := 1;
                             pd_age := 4; pd_species := "Canine" |})
                 {| db := with_pets rex_store
                            [Pet.Build 1 "Rex" 1 3 2; Pet.Build 2 "Bella" 1 4 2];
                    log := [SELECT pet_table; COMMIT; SELECT species_table] |}).
    reflexivity.
Defined.

(** *** Verified tokens and the acting user *)

Lemma sign_no_space {codec : Jwt.Codec} (p : Jwt.payload) (key : string) :
  contains " " (Jwt.sign p key) = false.
Proof. apply one_piece_without_separator, Jwt.sign_one_piece. Qed.

(** A header with a token that holds no space goes on to verification of
    that token. *)
Lemma token_required_bearer
      {config : Config} {codec : Jwt.Codec}
      (func : User.t -> M response) (token : string) (now : Z) (w : world) :
  token <> "" ->
  contains " " token = false ->
  token_required func (Some ("Bearer " ++ token)) now w =
  wrapper_verify func token now w.
Proof.
  intros Ht Hc. unfold token_required.
  now rewrite (bearer_header_whole token Ht Hc).
Qed.

Lemma wrapper_verify_subject
      {config : Config} {codec : Jwt.Codec}
      (func : User.t -> M response) (token : string) (now : Z)
      (payload : Jwt.payload) (uid : Z) (w : world) :
  Jwt.decode token SECRET_KEY now = inl payload ->
  Jwt.sub payload = Some uid ->
  wrapper_verify func token now w = (user <- lookup_user uid ;; func user) w.
Proof.
  intros Hd Hs. unfold wrapper_verify. rewrite Hd, Hs. reflexivity.
Qed.

(** The lookup by the rows it finds. *)
Lemma lookup_user_rows (uid : Z) (w : world) :
  lookup_user uid w =
  match filter (fun u => User.id u =? uid) (users (db w)) with
  | [] => (Raise Py.NoResultFound, executed (SELECT user_table) w)
  | [u] => (Ret u, executed (SELECT user_table) w)
  | _ :: _ :: _ => (Raise Py.MultipleResultsFound, executed (SELECT user_table) w)
  end.
Proof.
  unfold lookup_user, bind, select, scalar_one. cbn [db executed].
  now destruct (filter (fun u => User.id u =? uid) (users (db w))) as [|u [|u' rest]].
Qed.

Lemma filter_nil_iff {A} (p : A -> bool) (rows : list A) :
  filter p rows = [] <-> forall r, In r rows -> p r = false.
Proof.
  split.
  - intros H r Hin. destruct (p r) eqn:E; [|reflexivity].
    assert (Hf : In r (filter p rows)) by (apply filter_In; now split).
    rewrite H in Hf. contradiction.
  - induction rows as [|r rest IH]; simpl; intros H; [reflexivity|].
    rewrite (H r) by now left. apply IH. intros r' Hr'. apply H. now right.
Qed.

(** C10: for a request whose token passed signature and expiry validation
    and carries the subject [uid], the middleware is the lookup
    [scalar_one] of the users with id [uid] followed by the handler.  When
    exactly one row has that id, the lookup returns that user and the
    handler runs with it; the lookup returns a user in that case only.
    When no row has the id, the lookup raises [NoResultFound] and so does
    the middleware: it returns no response, neither 401 nor any other, the
    handler does not run and the store is as before.  When several rows
    have it, the middleware ends with [MultipleResultsFound].  The lookup
    ends in [NoResultFound] exactly when no user has the id. *)
Theorem verified_token_lookup
        {config : Config} {codec : Jwt.Codec}
        (func : User.t -> M response) (token : string) (now : Z)
        (payload : Jwt.payload) (uid : Z) (w : world) :
  token <> "" ->
  contains " " token = false ->
  Jwt.decode token SECRET_KEY now = inl payload ->
  Jwt.sub payload = Some uid ->
  token_required func (Some ("Bearer " ++ token)) now w =
    (user <- lookup_user uid ;; func user) w
  /\ (forall u,
        filter (fun r => User.id r =? uid) (users (db w)) = [u] ->
        lookup_user uid w = (Ret u, executed (SELECT user_table) w)
        /\ token_required func (Some ("Bearer " ++ token)) now w =
             func u (executed (SELECT user_table) w))
  /\ (forall u w', lookup_user uid w = (Ret u, w') ->
        filter (fun r => User.id r =? uid) (users (db w)) = [u])
  /\ ((forall u, In u (users (db w)) -> User.id u <> uid) ->
        token_required func (Some ("Bearer " ++ token)) now w =
          (Raise Py.NoResultFound, executed (SELECT user_table) w)
        /\ (forall r w', token_required func (Some ("Bearer " ++ token)) now w
                         <> (Ret r, w'))
        /\ db (executed (SELECT user_table) w) = db w)
  /\ (forall u u' rest,
        filter (fun r => User.id r =? uid) (users (db w)) = u :: u' :: rest ->
        token_required func (Some ("Bearer " ++ token)) now w =
          (Raise Py.MultipleResultsFound, executed (SELECT user_table) w))
  /\ (fst (lookup_user uid w) = Raise Py.NoResultFound <->
      forall u, In u (users (db w)) -> User.id u <> uid).
Proof.
  intros Ht Hc Hd Hs.
  assert (Hreq : token_required func (Some ("Bearer " ++ token)) now w =
                 (user <- lookup_user uid ;; func user) w).
  { rewrite (token_required_bearer func token now w Ht Hc).
    exact (wrapper_verify_subject func token now payload uid w Hd Hs). }
  assert (Hnone : (forall u, In u (users (db w)) -> User.id u <> uid) ->
                  filter (fun r => User.id r =? uid) (users (db w)) = []).
  { intros H. apply filter_nil_iff. intros r Hr. apply Z.eqb_neq. now apply H. }
  split; [exact Hreq|]. split; [|split; [|split; [|split; [|split]]]].
  - intros u Hf. rewrite Hreq. unfold bind. rewrite lookup_user_rows, Hf. now split.
  - intros u w'. rewrite lookup_user_rows.
    destruct (filter (fun r => User.id r =? uid) (users (db w))) as [|u0 [|u1 rest]];
      intros H; try discriminate H. now injection H as -> _.
  - intros H. split; [|split; [|reflexivity]].
    + rewrite Hreq. unfold bind. rewrite lookup_user_rows, (Hnone H). reflexivity.
    + intros r w'. rewrite Hreq. unfold bind. rewrite lookup_user_rows, (Hnone H).
      discriminate.
  - intros u u' rest Hf. rewrite Hreq. unfold bind.
    rewrite lookup_user_rows, Hf. reflexivity.
  - rewrite lookup_user_rows.
    destruct (filter (fun r => User.id r =? uid) (users (db w)))
      as [|u0 [|u1 rest]] eqn:E; cbn [fst]; intros H; try discriminate H.
    intros u Hu. apply Z.eqb_neq.
    exact (proj1 (filter_nil_iff _ _) E u Hu).
  - intros H. rewrite lookup_user_rows, (Hnone H). reflexivity.
Qed.

Definition subject7 : Jwt.payload := {| Jwt.sub := Some 7; Jwt.exp := Some 100 |}.

Definition subject1 : Jwt.payload := {| Jwt.sub := Some 1; Jwt.exp := Some 100 |}.

Definition ann : User.t :=
  User.Build 1 "Ann" None "ann@example.org"
             (Reference.generate_password_hash "secret" "salt").

Definition ann_store : store :=
  {| users := [ann]; owners := []; species := []; pets := [] |}.

Lemma verified_token_lookup_witness :
  (let w := Reference.fresh Reference.empty_store in
   let header := Some ("Bearer " ++ Reference.sign subject7 "clinic secret") in
   @token_required Reference.config Reference.codec profile header 50 w =
     (Raise Py.NoResultFound, executed (SELECT user_table) w)
   /\ (forall r w', @token_required Reference.config Reference.codec profile header 50 w
                    <> (Ret r, w'))
   /\ db (executed (SELECT user_table) w) = db w)
  /\
  (let w := Reference.fresh ann_store in
   let header := Some ("Bearer " ++ Reference.sign subject1 "clinic secret") in
   lookup_user 1 w = (Ret ann, executed (SELECT user_table) w)
   /\ @token_required Reference.config Reference.codec profile header 50 w =
        profile ann (executed (SELECT user_table) w)).
Proof.
  cbv zeta. split.
  - apply (@verified_token_lookup Reference.config Reference.codec profile
             (Reference.sign subject7 "clinic secret") 50 subject7 7
             (Reference.fresh Reference.empty_store)).
    + discriminate.
    + reflexivity.
    + reflexivity.
    + reflexivity.
    + intros u [].
  - apply (@verified_token_lookup Reference.config Reference.codec profile
             (Reference.sign subject1 "clinic secret") 50 subject1 1
             (Reference.fresh ann_store)).
    + discriminate.
    + reflexivity.
    + reflexivity.
    + reflexivity.
    + reflexivity.
Defined.

(** C2 fails on the code: a token that verifies under the secret, is not
    expired and carries no subject is not answered 401 "Invalid token".
    [jwt.decode] returns its payload, and reading the subject of the
    payload raises [KeyError], which nothing catches; no store read has
    happened. *)
Theorem token_without_subject_raises
        {config : Config} {codec : Jwt.Codec}
        (func : User.t -> M response) (token : string) (now : Z)
        (payload : Jwt.payload) (w : world) :
  token <> "" ->
  contains " " token = false ->
  Jwt.verify token SECRET_KEY = Some payload ->
  (forall e, Jwt.exp payload = Some e -> now < e) ->
  Jwt.sub payload = None ->
  Jwt.decode token SECRET_KEY now = inl payload /\
  token_required func (Some ("Bearer " ++ token)) now w = (Raise Py.KeyError, w).
Proof.
  intros Ht Hc Hv He Hs.
  assert (Hd : Jwt.decode token SECRET_KEY now = inl payload).
  { unfold Jwt.decode. rewrite Hv. destruct (Jwt.exp payload) as [e|]; [|reflexivity].
    specialize (He e eq_refl). apply Z.leb_gt in He. now rewrite He. }
  split; [exact Hd|].
  rewrite (token_required_bearer func token now w Ht Hc).
  unfold wrapper_verify. rewrite Hd, Hs. reflexivity.
Qed.

Definition no_subject : Jwt.payload := {| Jwt.sub := None; Jwt.exp := Some 100 |}.

Lemma token_without_subject_raises_witness :
  let w := Reference.fresh Reference.empty_store in
  let token := Reference.sign no_subject "clinic secret" in
  @Jwt.decode Reference.codec token "clinic secret" 50 = inl no_subject /\
  @token_required Reference.config Reference.codec profile
    (Some ("Bearer " ++ token)) 50 w = (Raise Py.KeyError, w).
Proof.
  cbv zeta.
  apply (@token_without_subject_raises Reference.config Reference.codec profile
           (Reference.sign no_subject "clinic secret") 50 no_subject
           (Reference.fresh Reference.empty_store)).
  - discriminate.
  - reflexivity.
  - reflexivity.
  - intros e [= <-]. reflexivity.
  - reflexivity.
Defined.

(** *** Login and the lifetime of a token *)

Lemma decode_encode {codec : Jwt.Codec} (p : Jwt.payload) (key : string) (now : Z) :
  Jwt.decode (Jwt.encode p key) key now =
  match Jwt.exp p with
  | Some e => if e <=? now then inr Jwt.ExpiredSignatureError else inl p
  | None => inl p
  end.
Proof. unfold Jwt.decode, Jwt.encode. now rewrite Jwt.verify_sign. Qed.

(** The token that [login] writes for user [u] at time [T]. *)
Definition issued {config : Config} {codec : Jwt.Codec} (u : User.t) (T : Z) : string :=
  Jwt.encode {| Jwt.sub := Some (User.id u); Jwt.exp := Some (T + 30 * 60) |} SECRET_KEY.

Definition credentials (email password : string) : login_data :=
  {| lg_email := Some email; lg_password := Some password |}.

Definition bad_credentials : response := (Detail "invalid email or password", 401).

Lemma login_missing
      {config : Config} {codec : Jwt.Codec} {hasher : Werkzeug.Hasher}
      (data : login_data) (T : Z) (w : world) :
  negb (Py.truthy (lg_email data)) || negb (Py.truthy (lg_password data)) = true ->
  login data T w = (Ret (Detail "missing email or password", 400), w).
Proof. intros H. unfold login. now rewrite H. Qed.

Lemma login_rows
      {config : Config} {codec : Jwt.Codec} {hasher : Werkzeug.Hasher}
      (email password : string) (T : Z) (w : world) :
  email <> "" ->
  password <> "" ->
  login (credentials email password) T w =
  match filter (fun u => (User.email u =? email)%string) (users (db w)) with
  | [] => (Ret bad_credentials, executed (SELECT user_table) w)
  | [u] =>
      if Werkzeug.check_password_hash (User.password u) password
      then (Ret (TokenBody (issued u T), 200), executed (SELECT user_table) w)
      else (Ret bad_credentials, executed (SELECT user_table) w)
  | _ :: _ :: _ => (Raise Py.MultipleResultsFound, executed (SELECT user_table) w)
  end.
Proof.
  intros He Hp. apply String.eqb_neq in He, Hp.
  unfold login, credentials. cbn [lg_email lg_password Py.truthy].
  rewrite He, Hp. cbn [negb orb].
  unfold bind, item, ret, select, scalar_one_or_none, raise. cbn [db executed].
  destruct (filter (fun u => (User.email u =? email)%string) (users (db w)))
    as [|u [|u' rest]]; cbv beta iota delta [ret raise]; try reflexivity.
  now destruct (Werkzeug.check_password_hash (User.password u) password).
Qed.

(** A token in the answer of [login] is the token issued for a stored
    user, and the status is 200. *)
Lemma login_token
      {config : Config} {codec : Jwt.Codec} {hasher : Werkzeug.Hasher}
      (data : login_data) (T : Z) (w w' : world) (token : string) (status : Z) :
  login data T w = (Ret (TokenBody token, status), w') ->
  exists u,
    In u (users (db w)) /\ token = issued u T /\ status = 200 /\
    lg_email data = Some (User.email u) /\ w' = executed (SELECT user_table) w.
Proof.
  intros H.
  destruct (negb (Py.truthy (lg_email data)) || negb (Py.truthy (lg_password data)))
    eqn:E.
  - rewrite (login_missing data T w E) in H. discriminate H.
  - apply orb_false_iff in E as [He Hp].
    destruct data as [[email|] [password|]]; cbn in He, Hp; try discriminate.
    apply negb_false_iff, negb_true_iff, String.eqb_neq in He, Hp.
    change {| lg_email := Some email; lg_password := Some password |}
      with (credentials email password) in H.
    rewrite (login_rows email password T w He Hp) in H.
    destruct (filter (fun u => (User.email u =? email)%string) (users (db w)))
      as [|u [|u' rest]] eqn:Hf; try discriminate H.
    destruct (Werkzeug.check_password_hash (User.password u) password);
      try discriminate H.
    injection H as <- <- <-. exists u.
    assert (Hin : In u (filter (fun u => (User.email u =? email)%string) (users (db w))))
      by (rewrite Hf; now left).
    apply filter_In in Hin as [Hin Hmail]. apply String.eqb_eq in Hmail.
    cbn [lg_email]. rewrite Hmail. repeat split. exact Hin.
Qed.

Lemma decode_verified {codec : Jwt.Codec} (token key : string) (now : Z)
      (payload : Jwt.payload) :
  Jwt.verify token key = Some payload ->
  (forall e, Jwt.exp payload = Some e -> now < e) ->
  Jwt.decode token key now = inl payload.
Proof.
  intros Hv He. unfold Jwt.decode. rewrite Hv.
  destruct (Jwt.exp payload) as [e|]; [|reflexivity].
  specialize (He e eq_refl). apply Z.leb_gt in He. now rewrite He.
Qed.

(** A clock reading is before the start of a second when its timestamp
    is before that second. *)
Lemma timestamp_before (clock second : Z) :
  Jwt.timestamp clock < second <-> clock < second * 1000000.
Proof.
  unfold Jwt.timestamp.
  pose proof (Z.div_mod clock 1000000). pose proof (Z.mod_pos_bound clock 1000000). lia.
Qed.

Lemma timestamp_within (clock : Z) :
  Jwt.timestamp clock * 1000000 <= clock < Jwt.timestamp clock * 1000000 + 1000000.
Proof.
  unfold Jwt.timestamp.
  pose proof (Z.div_mod clock 1000000). pose proof (Z.mod_pos_bound clock 1000000). lia.
Qed.

(** Thirty minutes, in microseconds. *)
Definition half_hour : Z := 30 * 60 * 1000000.

(** The clock reading from which a token issued at the clock reading [T]
    is expired: thirty minutes after the start of the second of [T]. *)
Definition expiry (T : Z) : Z := (Jwt.timestamp T + 30 * 60) * 1000000.

(** C4, as stated, fails: a token issued at the clock reading 1000.9 s is
    refused, with 401 "Token expired", at 2800.5 s, which is before the
    issue time plus 30 minutes (2800.9 s): the expiry written into the
    token is a whole second, the fraction of the issue time is dropped. *)
Lemma token_refused_within_half_hour :
  let T := 1000900000 in
  let now := 2800500000 in
  let w := Reference.fresh ann_store in
  exists token w',
    @login Reference.config Reference.codec Reference.hasher
      (credentials "ann@example.org" "secret") (Jwt.timestamp T) w =
      (Ret (TokenBody token, 200), w')
    /\ now < T + half_hour
    /\ @Jwt.decode Reference.codec token "clinic secret" (Jwt.timestamp now) =
         inr Jwt.ExpiredSignatureError
    /\ @token_required Reference.config Reference.codec profile
         (Some ("Bearer " ++ token)) (Jwt.timestamp now) w' =
         (Ret (Detail "Token expired", 401), w').
Proof.
  cbv zeta. eexists. eexists. split; [reflexivity|].
  split; [reflexivity|]. split; reflexivity.
Qed.

(** C4, amended: let [token] be the token that [login] answered at the
    clock reading [T].  Its expiry is 30 minutes after the start of the
    second in which [T] falls, so less than a second before [T] plus 30
    minutes, and equal to it when [T] is a whole second.  At every clock
    reading before the expiry, verification succeeds and yields the
    payload written at login, and the middleware goes on to look up the
    subject and run the handler with the user of that id.  At every clock
    reading from the expiry on, hence in particular at exactly [T] plus 30
    minutes, verification fails with [ExpiredSignatureError] and the
    middleware answers 401 "Token expired" without reading the store. *)
Theorem token_lifetime
        {config : Config} {codec : Jwt.Codec} {hasher : Werkzeug.Hasher}
        (data : login_data) (T : Z) (w w' : world) (token : string) :
  login data (Jwt.timestamp T) w = (Ret (TokenBody token, 200), w') ->
  (T + half_hour - 1000000 < expiry T <= T + half_hour)
  /\ (T mod 1000000 = 0 -> expiry T = T + half_hour)
  /\ Jwt.decode token SECRET_KEY (Jwt.timestamp (T + half_hour)) =
       inr Jwt.ExpiredSignatureError
  /\ exists u,
      In u (users (db w)) /\
      forall now : Z,
        (now < expiry T ->
         Jwt.decode token SECRET_KEY (Jwt.timestamp now) =
           inl {| Jwt.sub := Some (User.id u);
                  Jwt.exp := Some (Jwt.timestamp T + 30 * 60) |}
         /\ forall (func : User.t -> M response) (w2 : world),
             token_required func (Some ("Bearer " ++ token)) (Jwt.timestamp now) w2 =
               (user <- lookup_user (User.id u) ;; func user) w2
             /\ (filter (fun r => User.id r =? User.id u) (users (db w2)) = [u] ->
                 token_required func (Some ("Bearer " ++ token)) (Jwt.timestamp now) w2 =
                   func u (executed (SELECT user_table) w2)))
        /\
        (expiry T <= now ->
         Jwt.decode token SECRET_KEY (Jwt.timestamp now) = inr Jwt.ExpiredSignatureError
         /\ forall (func : User.t -> M response) (w2 : world),
             token_required func (Some ("Bearer " ++ token)) (Jwt.timestamp now) w2 =
               (Ret (Detail "Token expired", 401), w2)).
Proof.
  intros Hlogin. unfold expiry, half_hour.
  pose proof (timestamp_within T) as HT.
  split; [lia|]. split.
  { intros Hmod. unfold Jwt.timestamp in *.
    pose proof (Z.div_mod T 1000000). lia. }
  destruct (login_token data (Jwt.timestamp T) w w' token 200 Hlogin)
    as (u & Hin & -> & _).
  split.
  { unfold issued. rewrite decode_encode. cbn [Jwt.exp].
    replace (Jwt.timestamp T + 30 * 60 <=? Jwt.timestamp (T + 30 * 60 * 1000000))
      with true; [reflexivity|].
    symmetry. apply Z.leb_le.
    destruct (Z.le_gt_cases (Jwt.timestamp T + 30 * 60)
                (Jwt.timestamp (T + 30 * 60 * 1000000))) as [H|H]; [exact H|].
    apply timestamp_before in H. lia. }
  exists u. split; [exact Hin|]. intros now.
  assert (Hdec : Jwt.decode (issued u (Jwt.timestamp T)) SECRET_KEY (Jwt.timestamp now) =
                 if Jwt.timestamp T + 30 * 60 <=? Jwt.timestamp now
                 then inr Jwt.ExpiredSignatureError
                 else inl {| Jwt.sub := Some (User.id u);
                             Jwt.exp := Some (Jwt.timestamp T + 30 * 60) |}).
  { unfold issued. now rewrite decode_encode. }
  assert (Hbearer : forall func w2,
             token_required func (Some ("Bearer " ++ issued u (Jwt.timestamp T)))
               (Jwt.timestamp now) w2 =
             wrapper_verify func (issued u (Jwt.timestamp T)) (Jwt.timestamp now) w2).
  { intros func w2. apply token_required_bearer.
    - unfold issued, Jwt.encode. apply Jwt.sign_nonempty.
    - unfold issued, Jwt.encode. apply sign_no_space. }
  split.
  - intros Hnow.
    assert (Hlt : Jwt.timestamp now < Jwt.timestamp T + 30 * 60)
      by now apply timestamp_before.
    apply Z.leb_gt in Hlt. rewrite Hlt in Hdec. split; [exact Hdec|].
    intros func w2. rewrite Hbearer.
    rewrite (wrapper_verify_subject func _ (Jwt.timestamp now) _ (User.id u) w2
               Hdec eq_refl).
    split; [reflexivity|].
    intros Hf. unfold bind. rewrite lookup_user_rows, Hf. reflexivity.
  - intros Hnow.
    assert (Hle : Jwt.timestamp T + 30 * 60 <= Jwt.timestamp now).
    { destruct (Z.le_gt_cases (Jwt.timestamp T + 30 * 60) (Jwt.timestamp now))
        as [H|H]; [exact H|].
      apply timestamp_before in H. lia. }
    apply Z.leb_le in Hle. rewrite Hle in Hdec. split; [exact Hdec|].
    intros func w2. rewrite Hbearer. unfold wrapper_verify. now rewrite Hdec.
Qed.

Lemma token_lifetime_witness :
  let T := 1000900000 in
  let token := @issued Reference.config Reference.codec ann 1000 in
  (T + half_hour - 1000000 < expiry T <= T + half_hour)
  /\ (@Jwt.decode Reference.codec token "clinic secret" (Jwt.timestamp 2799999999) =
        inl {| Jwt.sub := Some 1; Jwt.exp := Some 2800 |}
      /\ @token_required Reference.config Reference.codec profile
           (Some ("Bearer " ++ token)) (Jwt.timestamp 2799999999)
           (Reference.fresh ann_store) =
         profile ann (executed (SELECT user_table) (Reference.fresh ann_store)))
  /\ (@Jwt.decode Reference.codec token "clinic secret" (Jwt.timestamp 2800000000) =
        inr Jwt.ExpiredSignatureError
      /\ @token_required Reference.config Reference.codec profile
           (Some ("Bearer " ++ token)) (Jwt.timestamp 2800000000)
           (Reference.fresh ann_store) =
         (Ret (Detail "Token expired", 401), Reference.fresh ann_store)).
Proof.
  cbv zeta.
  assert (Hlogin :
            @login Reference.config Reference.codec Reference.hasher
              (credentials "ann@example.org" "secret") (Jwt.timestamp 1000900000)
              (Reference.fresh ann_store) =
            (Ret (TokenBody (@issued Reference.config Reference.codec ann 1000), 200),
             executed (SELECT user_table) (Reference.fresh ann_store)))
    by reflexivity.
  destruct (@token_lifetime Reference.config Reference.codec Reference.hasher
              _ _ _ _ _ Hlogin) as (Hbounds & _ & _ & u & Hin & Hnow).
  destruct Hin as [<-|[]].
  split; [exact Hbounds|]. split.
  - destruct (proj1 (Hnow 2799999999) eq_refl) as [Hd Hreq].
    split; [exact Hd|].
    exact (proj2 (Hreq profile (Reference.fresh ann_store)) eq_refl).
  - destruct (proj2 (Hnow 2800000000) ltac:(discriminate)) as [Hd Hreq].
    split; [exact Hd|]. exact (Hreq profile (Reference.fresh ann_store)).
Defined.

(** *** Signup followed by login *)

Lemma next_id_above {A} (key : A -> Z) (rows : list A) (r : A) :
  In r rows -> key r < next_id key rows.
Proof.
  unfold next_id. induction rows as [|r0 rest IH]; cbn [fold_right In]; intros Hin.
  - contradiction.
  - destruct Hin as [->|Hin]; [lia|]. specialize (IH Hin). lia.
Qed.

(** An email is unregistered when no row of the user table carries it. *)
Definition unregistered (email : string) (s : store) : Prop :=
  forall u, In u (users s) -> User.email u <> email.

Lemma no_user_selected (email : string) (s : store) :
  unregistered email s ->
  filter (fun u => (User.email u =? email)%string) (users s) = [].
Proof.
  intros H. apply filter_nil_iff. intros u Hu. apply String.eqb_neq. now apply H.
Qed.

Lemma no_user_exists (email : string) (s : store) :
  unregistered email s ->
  existsb (fun u => (User.email u =? email)%string) (users s) = false.
Proof.
  intros H. destruct (existsb _ (users s)) eqn:E; [|reflexivity].
  apply existsb_exists in E as (u & Hu & He). apply String.eqb_eq in He.
  now destruct (H u Hu).
Qed.

Definition registration (email password first_name : string)
           (last_name : option string) : signup_data :=
  {| su_email := Some email;
     su_password := Some password;
     su_first_name := Some first_name;
     su_last_name := last_name |}.

(** The row that [signup] writes. *)
Definition signed_up {hasher : Werkzeug.Hasher}
           (email password first_name : string) (last_name : option string)
           (salt : string) (s : store) : User.t :=
  User.Build (next_id User.id (users s)) first_name last_name email
             (Werkzeug.generate_password_hash password salt).

Lemma signup_creates
      {hasher : Werkzeug.Hasher}
      (email password first_name : string) (last_name : option string)
      (salt : string) (w : world) :
  email <> "" ->
  unregistered email (db w) ->
  signup (registration email password first_name last_name) salt w =
  (Ret (Detail "user created successfully", 201),
   {| db := with_users (db w)
              (users (db w)
                 ++ [signed_up email password first_name last_name salt (db w)])%list;
      log := ((log w ++ [SELECT user_table]) ++ [COMMIT])%list |}).
Proof.
  intros He Hu. apply String.eqb_neq in He.
  unfold signup, registration.
  cbn [su_email su_password su_first_name su_last_name Py.truthy].
  rewrite He. cbn [negb].
  unfold bind, item, select, ret. cbn [db executed].
  rewrite (no_user_selected email (db w) Hu).
  cbv beta iota delta [scalar_one_or_none ret].
  unfold add_user. cbn [db log executed].
  now rewrite (no_user_exists email (db w) Hu).
Qed.

Definition nameless : signup_data :=
  {| su_email := Some "ann@example.org";
     su_password := Some "secret";
     su_first_name := None;
     su_last_name := None |}.

(** C5, as stated, fails.  A signup with an unregistered email and the
    empty password is accepted (201), and the login that follows with the
    same email and password is answered 400, not 200.  A signup with an
    unregistered email and no first name creates no user: the user table
    refuses the row, and the login that follows is answered 401. *)
Lemma signup_without_login :
  let w := Reference.fresh Reference.empty_store in
  unregistered "ann@example.org" (db w) /\
  (exists w1,
      @signup Reference.hasher (registration "ann@example.org" "" "Ann" None) "salt" w =
        (Ret (Detail "user created successfully", 201), w1) /\
      @login Reference.config Reference.codec Reference.hasher
        (credentials "ann@example.org" "") 0 w1 =
        (Ret (Detail "missing email or password", 400), w1)) /\
  (exists w1,
      @signup Reference.hasher nameless "salt" w = (Raise Py.IntegrityError, w1) /\
      db w1 = db w /\
      fst (@login Reference.config Reference.codec Reference.hasher
             (credentials "ann@example.org" "secret") 0 w1) =
        Ret (Detail "invalid email or password", 401)).
Proof.
  cbv zeta. split; [intros u []|].
  split; eexists; repeat split; reflexivity.
Qed.

(** C5, amended: for every signup payload with a first name, a non-empty
    password and a non-empty email that is not yet registered, signup
    answers 201 and adds one user; a login that follows with the same email
    and password answers 200 with a token; verified with the same secret
    before its expiry, the token yields the id of the user that the signup
    created, and the middleware hands that user to the handler. *)
Theorem signup_then_login
        {config : Config} {codec : Jwt.Codec} {hasher : Werkzeug.Hasher}
        (email password first_name : string) (last_name : option string)
        (salt : string) (T : Z) (w : world) :
  email <> "" ->
  password <> "" ->
  unregistered email (db w) ->
  exists (user : User.t) (w1 w2 : world) (token : string),
    signup (registration email password first_name last_name) salt w =
      (Ret (Detail "user created successfully", 201), w1)
    /\ users (db w1) = (users (db w) ++ [user])%list
    /\ User.email user = email
    /\ login (credentials email password) T w1 = (Ret (TokenBody token, 200), w2)
    /\ forall now : Z,
        now < T + 30 * 60 ->
        (exists payload,
            Jwt.decode token SECRET_KEY now = inl payload /\
            Jwt.sub payload = Some (User.id user))
        /\ forall (func : User.t -> M response) (w3 : world),
            db w3 = db w1 ->
            token_required func (Some ("Bearer " ++ token)) now w3 =
              func user (executed (SELECT user_table) w3).
Proof.
  intros He Hp Hu.
  set (user := signed_up email password first_name last_name salt (db w)).
  set (w1 := {| db := with_users (db w) (users (db w) ++ [user])%list;
                log := ((log w ++ [SELECT user_table]) ++ [COMMIT])%list |}).
  exists user, w1, (executed (SELECT user_table) w1), (issued user T).
  assert (Hemail : filter (fun u => (User.email u =? email)%string) (users (db w1))
                   = [user]).
  { cbn [w1 db with_users users]. rewrite filter_app, (no_user_selected email (db w) Hu).
    cbn [filter user signed_up User.email app]. now rewrite String.eqb_refl. }
  assert (Hid : filter (fun u => User.id u =? User.id user) (users (db w1)) = [user]).
  { cbn [w1 db with_users users]. rewrite filter_app.
    replace (filter (fun u => User.id u =? User.id user) (users (db w))) with (@nil User.t).
    - cbn [filter app]. now rewrite Z.eqb_refl.
    - symmetry. apply filter_nil_iff. intros u Hin. apply Z.eqb_neq.
      pose proof (next_id_above User.id (users (db w)) u Hin) as Hlt.
      cbn [user signed_up User.id]. lia. }
  split; [exact (signup_creates email password first_name last_name salt w He Hu)|].
  split; [reflexivity|]. split; [reflexivity|]. split.
  - rewrite (login_rows email password T w1 He Hp), Hemail.
    cbn [user signed_up User.password]. now rewrite Werkzeug.check_generate.
  - intros now Hnow.
    assert (Hd : Jwt.decode (issued user T) SECRET_KEY now =
                 inl {| Jwt.sub := Some (User.id user);
                        Jwt.exp := Some (T + 30 * 60) |}).
    { unfold issued. rewrite decode_encode. cbn [Jwt.exp].
      apply Z.leb_gt in Hnow. now rewrite Hnow. }
    split.
    + eexists. split; [exact Hd | reflexivity].
    + intros func w3 Hw3.
      rewrite token_required_bearer;
        [| unfold issued, Jwt.encode; apply Jwt.sign_nonempty
         | unfold issued, Jwt.encode; apply sign_no_space].
      rewrite (wrapper_verify_subject func _ now _ (User.id user) w3 Hd eq_refl).
      unfold bind. rewrite lookup_user_rows, Hw3, Hid. reflexivity.
Qed.

Lemma signup_then_login_witness :
  exists (user : User.t) (w1 w2 : world) (token : string),
    @signup Reference.hasher
      (registration "ann@example.org" "secret" "Ann" None) "salt"
      (Reference.fresh Reference.empty_store) =
      (Ret (Detail "user created successfully", 201), w1)
    /\ users (db w1) = ([] ++ [user])%list
    /\ User.email user = "ann@example.org"
    /\ @login Reference.config Reference.codec Reference.hasher
         (credentials "ann@example.org" "secret") 1000 w1 =
         (Ret (TokenBody token, 200), w2)
    /\ forall now : Z,
        now < 1000 + 30 * 60 ->
        (exists payload,
            @Jwt.decode Reference.codec token "clinic secret" now = inl payload /\
            Jwt.sub payload = Some (User.id user))
        /\ forall (func : User.t -> M response) (w3 : world),
            db w3 = db w1 ->
            @token_required Reference.config Reference.codec func
              (Some ("Bearer " ++ token)) now w3 =
              func user (executed (SELECT user_table) w3).
Proof.
  apply (@signup_then_login Reference.config Reference.codec Reference.hasher
           "ann@example.org" "secret" "Ann" None "salt" 1000
           (Reference.fresh Reference.empty_store)).
  - discriminate.
  - discriminate.
  - intros u [].
Defined.

(** *** Failed logins *)

(** The unique constraint on [User.email]. *)
Definition unique_emails (s : store) : Prop := NoDup (map User.email (users s)).

Lemma unique_row_selected (rows : list User.t) (u : User.t) :
  NoDup (map User.email rows) ->
  In u rows ->
  filter (fun r => (User.email r =? User.email u)%string) rows = [u].
Proof.
  induction rows as [|r rest IH]; cbn [map filter In]; intros Hnd Hin.
  - contradiction.
  - inversion Hnd as [|e es Hnotin Hrest]; subst.
    destruct Hin as [->|Hin].
    + rewrite String.eqb_refl. f_equal.
      apply filter_nil_iff. intros r Hr. apply String.eqb_neq. intros He.
      apply Hnotin. rewrite <- He. now apply in_map.
    + destruct (String.eqb_spec (User.email r) (User.email u)) as [He|He].
      * exfalso. apply Hnotin. rewrite He. now apply in_map.
      * now apply IH.
Qed.

(** C6, as stated, fails when the password field is present and empty: for
    a registered email, the empty password does not pass the hash check,
    and the answer is 400 "missing email or password", not 401. *)
Lemma empty_password_is_missing :
  let w := Reference.fresh ann_store in
  In ann (users (db w)) /\
  Reference.check_password_hash (User.password ann) "" = false /\
  @login Reference.config Reference.codec Reference.hasher
    (credentials (User.email ann) "") 0 w =
    (Ret (Detail "missing email or password", 400), w).
Proof. cbv zeta. repeat split. now left. Qed.

(** C6, amended: take two login requests whose email and password are both
    non-empty, the first with the email of a stored user and a password
    that fails the hash check, the second with an email that no stored
    user has.  Both are answered alike: status 401 and the body
    {"detail": "invalid email or password"}, after the same single read. *)
Theorem login_failures_alike
        {config : Config} {codec : Jwt.Codec} {hasher : Werkzeug.Hasher}
        (u : User.t) (password1 email2 password2 : string) (T1 T2 : Z) (w : world) :
  unique_emails (db w) ->
  In u (users (db w)) ->
  User.email u <> "" ->
  password1 <> "" ->
  Werkzeug.check_password_hash (User.password u) password1 = false ->
  email2 <> "" ->
  password2 <> "" ->
  unregistered email2 (db w) ->
  login (credentials (User.email u) password1) T1 w =
    (Ret (Detail "invalid email or password", 401), executed (SELECT user_table) w)
  /\
  login (credentials email2 password2) T2 w =
    (Ret (Detail "invalid email or password", 401), executed (SELECT user_table) w).
Proof.
  intros Hnd Hin He1 Hp1 Hcheck He2 Hp2 Hun. split.
  - rewrite (login_rows (User.email u) password1 T1 w He1 Hp1).
    rewrite (unique_row_selected (users (db w)) u Hnd Hin). now rewrite Hcheck.
  - rewrite (login_rows email2 password2 T2 w He2 Hp2).
    now rewrite (no_user_selected email2 (db w) Hun).
Qed.

Lemma login_failures_alike_witness :
  let w := Reference.fresh ann_store in
  @login Reference.config Reference.codec Reference.hasher
    (credentials "ann@example.org" "guess") 10 w =
    (Ret (Detail "invalid email or password", 401), executed (SELECT user_table) w)
  /\
  @login Reference.config Reference.codec Reference.hasher
    (credentials "bob@example.org" "secret") 20 w =
    (Ret (Detail "invalid email or password", 401), executed (SELECT user_table) w).
Proof.
  cbv zeta.
  apply (@login_failures_alike Reference.config Reference.codec Reference.hasher
           ann "guess" "bob@example.org" "secret" 10 20 (Reference.fresh ann_store)).
  - repeat constructor. intros [].
  - now left.
  - discriminate.
  - discriminate.
  - reflexivity.
  - discriminate.
  - discriminate.
  - intros v [<-|[]]. discriminate.
Defined.

(** ** Further properties of the handlers *)

(** *** What the header checks can end with *)

Lemma prefix_true_append (s1 s2 : string) :
  String.prefix s1 s2 = true -> exists t, s2 = (s1 ++ t)%string.
Proof.
  revert s2. induction s1 as [|c rest IH]; intros s2 H.
  - now exists s2.
  - destruct s2 as [|d s2']; simpl in H; [discriminate|].
    destruct (ascii_dec c d) as [->|]; [|discriminate].
    destruct (IH s2' H) as [t ->]. now exists t.
Qed.

Lemma before_no_separator (c : ascii) (s : string) :
  contains c (before c s) = false.
Proof.
  induction s as [|d rest IH]; simpl; [reflexivity|].
  destruct (Ascii.eqb d c) eqn:E; simpl; [reflexivity|]. now rewrite E.
Qed.

Lemma before_decompose (c : ascii) (s : string) :
  exists rest, s = (before c s ++ rest)%string /\
               (rest = "" \/ exists r, rest = String c r).
Proof.
  induction s as [|d s' (rest & Hs & Hrest)]; simpl.
  - exists "". split; [reflexivity | now left].
  - destruct (Ascii.eqb_spec d c) as [->|Hd].
    + exists (String c s'). split; [reflexivity | right; now exists s'].
    + exists rest. split; [simpl; now rewrite <- Hs | exact Hrest].
Qed.

(** The header checks never end with an exception: once the header starts
    with "Bearer ", [split(" ")] has a second piece, so the index 1 is in
    range.  Whatever they reject is answered 401.  A token they let through
    is not empty, holds no space, and is the text of the header between the
    prefix and the next space (or the end). *)
Theorem header_checks_outcome (authorization : option string) :
  match wrapper_token authorization with
  | Rejected (_, status) => status = 401
  | Bearer token =>
      token <> "" /\ contains " " token = false /\
      exists rest, authorization = Some ("Bearer " ++ token ++ rest) /\
                   (rest = "" \/ exists r, rest = String " " r)
  | Crashed _ => False
  end.
Proof.
  destruct authorization as [a|]; [|reflexivity].
  destruct (String.eqb_spec a "") as [->|Ha]; [reflexivity|].
  destruct (Py.startswith a "Bearer ") eqn:Hp.
  - destruct (prefix_true_append _ _ Hp) as [t ->].
    rewrite bearer_header.
    destruct (String.eqb_spec (before " " t) "") as [He|He]; [reflexivity|].
    split; [exact He|]. split; [apply before_no_separator|].
    destruct (before_decompose " " t) as (rest & Ht & Hrest).
    exists rest. split; [now rewrite <- Ht | exact Hrest].
  - unfold wrapper_token, prefix. cbn [Py.truthy].
    apply String.eqb_neq in Ha. now rewrite Ha, Hp.
Qed.

(** *** Who the middleware lets through *)

(** The header checks answer 401 or hand a token on. *)
Lemma header_checks_status (authorization : option string) :
  match wrapper_token authorization with
  | Rejected (_, status) => status = 401
  | Bearer _ => True
  | Crashed _ => False
  end.
Proof.
  destruct authorization as [a|]; [|reflexivity].
  destruct (String.eqb_spec a "") as [->|Ha]; [reflexivity|].
  destruct (Py.startswith a "Bearer ") eqn:Hp.
  - destruct (prefix_true_append _ _ Hp) as [t ->]. rewrite bearer_header.
    now destruct (before " " t =? "")%string.
  - unfold wrapper_token, prefix. cbn [Py.truthy].
    apply String.eqb_neq in Ha. now rewrite Ha, Hp.
Qed.

(** What [token_required] decides before the handler runs. *)
Inductive access : Type :=
| Denied (o : outcome response) (w' : world)
| Granted (user : User.t) (w' : world).

Lemma decode_inl {codec : Jwt.Codec} (token key : string) (now : Z)
      (payload : Jwt.payload) :
  Jwt.decode token key now = inl payload ->
  Jwt.verify token key = Some payload /\
  forall e, Jwt.exp payload = Some e -> now < e.
Proof.
  unfold Jwt.decode. destruct (Jwt.verify token key) as [p|]; [|discriminate].
  destruct (Jwt.exp p) as [e|] eqn:Hexp.
  - destruct (e <=? now) eqn:Hle; [discriminate|].
    intros [= <-]. split; [reflexivity|].
    intros e' He'. rewrite Hexp in He'. injection He' as <-.
    now apply Z.leb_gt.
  - intros [= <-]. split; [reflexivity|]. intros e' He'. congruence.
Qed.

(** The decision of [token_required] does not depend on the handler, and
    the handler runs in exactly one case: the header carries a token that
    verifies under the secret, is not expired, and whose subject is the id
    of exactly one stored user.  In that case, and in no other, the
    handler receives that user, after the single read of the user table.
    In every other case the store is as before and a returned response
    has status 401. *)
Theorem token_required_access
        {config : Config} {codec : Jwt.Codec}
        (authorization : option string) (now : Z) (w : world) :
  exists a : access,
    (forall func : User.t -> M response,
        token_required func authorization now w =
        match a with
        | Denied o w' => (o, w')
        | Granted user w' => func user w'
        end)
    /\
    match a with
    | Denied o w' =>
        db w' = db w /\ forall b status, o = Ret (b, status) -> status = 401
    | Granted user w' =>
        w' = executed (SELECT user_table) w /\
        filter (fun u => User.id u =? User.id user) (users (db w)) = [user] /\
        exists token payload,
          wrapper_token authorization = Bearer token /\
          Jwt.verify token SECRET_KEY = Some payload /\
          (forall e, Jwt.exp payload = Some e -> now < e) /\
          Jwt.sub payload = Some (User.id user)
    end
    /\
    (forall token payload user,
        wrapper_token authorization = Bearer token ->
        Jwt.verify token SECRET_KEY = Some payload ->
        (forall e, Jwt.exp payload = Some e -> now < e) ->
        Jwt.sub payload = Some (User.id user) ->
        filter (fun u => User.id u =? User.id user) (users (db w)) = [user] ->
        a = Granted user (executed (SELECT user_table) w)).
Proof.
  unfold token_required.
  pose proof (header_checks_status authorization) as Hh.
  destruct (wrapper_token authorization) as [[b status]|token|e].
  - exists (Denied (Ret (b, status)) w). split; [reflexivity|]. split.
    + split; [reflexivity|]. intros b' s' [= _ <-]. exact Hh.
    + intros token payload user Ht. discriminate Ht.
  - unfold wrapper_verify.
    assert (Hconv : forall token' payload' (user : User.t),
               Bearer token = Bearer token' ->
               Jwt.verify token' SECRET_KEY = Some payload' ->
               (forall e, Jwt.exp payload' = Some e -> now < e) ->
               Jwt.decode token SECRET_KEY now = inl payload').
    { intros token' payload' user [= <-] Hv He. now apply decode_verified. }
    destruct (Jwt.decode token SECRET_KEY now) as [payload|[|]] eqn:Hd.
    + destruct (decode_inl _ _ _ _ Hd) as [Hv Hexp].
      destruct (Jwt.sub payload) as [uid|] eqn:Hs.
      * destruct (filter (fun u => User.id u =? uid) (users (db w)))
          as [|u [|u' rest]] eqn:Hf.
        -- exists (Denied (Raise Py.NoResultFound) (executed (SELECT user_table) w)).
           split; [|split; [split; [reflexivity | discriminate]|]].
           ++ intros func. unfold bind, item, ret.
              rewrite lookup_user_rows, Hf. reflexivity.
           ++ intros token' payload' user Ht Hv' He' Hs' Hf'.
              pose proof (Hconv token' payload' user Ht Hv' He') as [= <-].
              rewrite Hs in Hs'. injection Hs' as ->. congruence.
        -- exists (Granted u (executed (SELECT user_table) w)).
           assert (Hu : User.id u = uid).
           { assert (Hin : In u (filter (fun u => User.id u =? uid) (users (db w))))
               by (rewrite Hf; now left).
             apply filter_In in Hin as [_ Hin]. now apply Z.eqb_eq. }
           split; [|split].
           ++ intros func. unfold bind, item, ret.
              rewrite lookup_user_rows, Hf. reflexivity.
           ++ split; [reflexivity|]. rewrite Hu. split; [exact Hf|].
              exists token, payload. repeat split; assumption.
           ++ intros token' payload' user Ht Hv' He' Hs' Hf'.
              pose proof (Hconv token' payload' user Ht Hv' He') as [= <-].
              rewrite Hs in Hs'. injection Hs' as ->. congruence.
        -- exists (Denied (Raise Py.MultipleResultsFound)
                          (executed (SELECT user_table) w)).
           split; [|split; [split; [reflexivity | discriminate]|]].
           ++ intros func. unfold bind, item, ret.
              rewrite lookup_user_rows, Hf. reflexivity.
           ++ intros token' payload' user Ht Hv' He' Hs' Hf'.
              pose proof (Hconv token' payload' user Ht Hv' He') as [= <-].
              rewrite Hs in Hs'. injection Hs' as ->. congruence.
      * exists (Denied (Raise Py.KeyError) w).
        split; [reflexivity|]. split; [split; [reflexivity | discriminate]|].
        intros token' payload' user Ht Hv' He' Hs' Hf'.
        pose proof (Hconv token' payload' user Ht Hv' He') as [= <-]. congruence.
    + exists (Denied (Ret (Detail "Token expired", 401)) w).
      split; [reflexivity|]. split.
      * split; [reflexivity|]. now intros b s [= _ <-].
      * intros token' payload' user Ht Hv' He' Hs' Hf'.
        discriminate (Hconv token' payload' user Ht Hv' He').
    + exists (Denied (Ret (Detail "Invalid token", 401)) w).
      split; [reflexivity|]. split.
      * split; [reflexivity|]. now intros b s [= _ <-].
      * intros token' payload' user Ht Hv' He' Hs' Hf'.
        discriminate (Hconv token' payload' user Ht Hv' He').
  - destruct Hh.
Qed.

Lemma token_required_access_witness :
  @token_required Reference.config Reference.codec profile
    (Some ("Bearer " ++ Reference.sign subject1 "clinic secret")) 50
    (Reference.fresh ann_store) =
  profile ann (executed (SELECT user_table) (Reference.fresh ann_store)).
Proof.
  destruct (@token_required_access Reference.config Reference.codec
              (Some ("Bearer " ++ Reference.sign subject1 "clinic secret")) 50
              (Reference.fresh ann_store)) as (a & Hrun & _ & Hgranted).
  rewrite (Hrun profile).
  rewrite (Hgranted (Reference.sign subject1 "clinic secret") subject1 ann
             eq_refl eq_refl).
  - reflexivity.
  - intros e [= <-]. reflexivity.
  - reflexivity.
  - reflexivity.
Defined.

(** A token that does not verify under the secret (malformed, or signed
    with another key) is answered 401 "Invalid token" whatever expiry it
    claims, without any read of the store. *)
Theorem unverified_token_rejected
        {config : Config} {codec : Jwt.Codec}
        (func : User.t -> M response) (token : string) (now : Z) (w : world) :
  token <> "" ->
  contains " " token = false ->
  Jwt.verify token SECRET_KEY = None ->
  token_required func (Some ("Bearer " ++ token)) now w =
  (Ret (Detail "Invalid token", 401), w).
Proof.
  intros Ht Hc Hv. rewrite (token_required_bearer func token now w Ht Hc).
  unfold wrapper_verify, Jwt.decode. now rewrite Hv.
Qed.

Lemma unverified_token_rejected_witness :
  @token_required Reference.config Reference.codec profile
    (Some ("Bearer " ++ Reference.sign subject7 "another key")) 50
    (Reference.fresh ann_store) =
  (Ret (Detail "Invalid token", 401), Reference.fresh ann_store).
Proof.
  apply (@unverified_token_rejected Reference.config Reference.codec).
  - discriminate.
  - reflexivity.
  - reflexivity.
Defined.

(** *** Lists of rows with a unique key *)

Lemma NoDup_snoc {A} (l : list A) (x : A) :
  NoDup l -> ~ In x l -> NoDup (l ++ [x]).
Proof.
  induction l as [|y rest IH]; cbn [app]; intros Hnd Hx.
  - constructor; [intros [] | constructor].
  - inversion Hnd as [|y' rest' Hy Hrest]; subst. constructor.
    + rewrite in_app_iff. intros [Hin|[->|[]]]; [now apply Hy | apply Hx; now left].
    + apply IH; [exact Hrest|]. intros Hin. apply Hx. now right.
Qed.

Lemma unique_key_selected {A} (key : A -> Z) (rows : list A) (r : A) :
  NoDup (map key rows) ->
  In r rows ->
  filter (fun x => key x =? key r) rows = [r].
Proof.
  induction rows as [|r0 rest IH]; cbn [map filter In]; intros Hnd Hin.
  - contradiction.
  - inversion Hnd as [|k ks Hnotin Hrest]; subst.
    destruct Hin as [->|Hin].
    + rewrite Z.eqb_refl. f_equal.
      apply filter_nil_iff. intros x Hx. apply Z.eqb_neq. intros He.
      apply Hnotin. rewrite <- He. now apply in_map.
    + destruct (Z.eqb_spec (key r0) (key r)) as [He|He].
      * exfalso. apply Hnotin. rewrite He. now apply in_map.
      * now apply IH.
Qed.

Lemma fresh_key_selected {A} (key : A -> Z) (rows : list A) (r : A) :
  key r = next_id key rows ->
  filter (fun x => key x =? key r) (rows ++ [r]) = [r].
Proof.
  intros Hk. rewrite filter_app. cbn [filter]. rewrite Z.eqb_refl.
  replace (filter (fun x => key x =? key r) rows) with (@nil A); [reflexivity|].
  symmetry. apply filter_nil_iff. intros x Hx. apply Z.eqb_neq.
  pose proof (next_id_above key rows x Hx). lia.
Qed.

Lemma fresh_key_unique {A} (key : A -> Z) (rows : list A) (r : A) :
  key r = next_id key rows ->
  NoDup (map key rows) ->
  NoDup (map key (rows ++ [r])).
Proof.
  intros Hk Hnd. rewrite map_app. cbn [map]. apply NoDup_snoc; [exact Hnd|].
  intros Hin. apply in_map_iff in Hin as (x & Hx & Hin).
  pose proof (next_id_above key rows x Hin). lia.
Qed.

(** *** Login *)

(** [login] answers with a token only for a stored user whose email is the
    one in the request and whose stored hash accepts the password of the
    request; the token is the one issued for that user at the time of the
    login, the status is 200, and the only statement executed is the read
    of the user table. *)
Theorem login_requires_password
        {config : Config} {codec : Jwt.Codec} {hasher : Werkzeug.Hasher}
        (data : login_data) (T : Z) (w w' : world) (token : string) (status : Z) :
  login data T w = (Ret (TokenBody token, status), w') ->
  exists (u : User.t) (password : string),
    In u (users (db w)) /\
    lg_email data = Some (User.email u) /\
    lg_password data = Some password /\
    Werkzeug.check_password_hash (User.password u) password = true /\
    token = issued u T /\
    status = 200 /\
    w' = executed (SELECT user_table) w.
Proof.
  intros H.
  destruct (negb (Py.truthy (lg_email data)) || negb (Py.truthy (lg_password data)))
    eqn:E.
  - rewrite (login_missing data T w E) in H. discriminate H.
  - apply orb_false_iff in E as [He Hp].
    destruct data as [[email|] [password|]]; cbn in He, Hp; try discriminate.
    apply negb_false_iff, negb_true_iff, String.eqb_neq in He, Hp.
    change {| lg_email := Some email; lg_password := Some password |}
      with (credentials email password) in H.
    rewrite (login_rows email password T w He Hp) in H.
    destruct (filter (fun u => (User.email u =? email)%string) (users (db w)))
      as [|u [|u' rest]] eqn:Hf; try discriminate H.
    destruct (Werkzeug.check_password_hash (User.password u) password) eqn:Hc;
      try discriminate H.
    injection H as <- <- <-. exists u, password.
    assert (Hin : In u (filter (fun u => (User.email u =? email)%string) (users (db w))))
      by (rewrite Hf; now left).
    apply filter_In in Hin as [Hin Hmail]. apply String.eqb_eq in Hmail.
    cbn [lg_email lg_password]. rewrite Hmail. repeat split; assumption.
Qed.

Lemma login_requires_password_witness :
  exists (u : User.t) (password : string),
    In u [ann] /\
    Some "ann@example.org" = Some (User.email u) /\
    Some "secret" = Some password /\
    Reference.check_password_hash (User.password u) password = true /\
    @issued Reference.config Reference.codec ann 1000 =
      @issued Reference.config Reference.codec u 1000 /\
    200 = 200 /\
    executed (SELECT user_table) (Reference.fresh ann_store) =
      executed (SELECT user_table) (Reference.fresh ann_store).
Proof.
  apply (@login_requires_password Reference.config Reference.codec Reference.hasher
           (credentials "ann@example.org" "secret") 1000 (Reference.fresh ann_store)).
  reflexivity.
Defined.

(** After a login, the token of the answer opens [profile] until it
    expires, and the profile is that of the user who logged in (user ids
    are unique, as a primary key is). *)
Theorem profile_after_login
        {config : Config} {codec : Jwt.Codec} {hasher : Werkzeug.Hasher}
        (data : login_data) (T now : Z) (w w' : world) (token : string) :
  NoDup (map User.id (users (db w))) ->
  login data T w = (Ret (TokenBody token, 200), w') ->
  now < T + 30 * 60 ->
  exists u : User.t,
    In u (users (db w)) /\
    lg_email data = Some (User.email u) /\
    token_required profile (Some ("Bearer " ++ token)) now w' =
      (Ret (ProfileBody (User.first_name u) (User.last_name u) (User.email u), 200),
       executed (SELECT user_table) w').
Proof.
  intros Hnd Hlogin Hnow.
  destruct (login_token data T w w' token 200 Hlogin)
    as (u & Hin & -> & _ & Hmail & ->).
  exists u. split; [exact Hin|]. split; [exact Hmail|].
  rewrite token_required_bearer;
    [| unfold issued, Jwt.encode; apply Jwt.sign_nonempty
     | unfold issued, Jwt.encode; apply sign_no_space].
  assert (Hd : Jwt.decode (issued u T) SECRET_KEY now =
               inl {| Jwt.sub := Some (User.id u); Jwt.exp := Some (T + 30 * 60) |}).
  { unfold issued. rewrite decode_encode. cbn [Jwt.exp].
    apply Z.leb_gt in Hnow. now rewrite Hnow. }
  rewrite (wrapper_verify_subject profile _ now _ (User.id u) _ Hd eq_refl).
  unfold bind. rewrite lookup_user_rows. cbn [db executed].
  now rewrite (unique_key_selected User.id (users (db w)) u Hnd Hin).
Qed.

Lemma profile_after_login_witness :
  exists u : User.t,
    In u [ann] /\
    Some "ann@example.org" = Some (User.email u) /\
    @token_required Reference.config Reference.codec profile
      (Some ("Bearer " ++ @issued Reference.config Reference.codec ann 1000)) 1500
      (executed (SELECT user_table) (Reference.fresh ann_store)) =
      (Ret (ProfileBody (User.first_name u) (User.last_name u) (User.email u), 200),
       executed (SELECT user_table)
         (executed (SELECT user_table) (Reference.fresh ann_store))).
Proof.
  apply (@profile_after_login Reference.config Reference.codec Reference.hasher
           (credentials "ann@example.org" "secret") 1000 1500
           (Reference.fresh ann_store)).
  - repeat constructor. intros [].
  - reflexivity.
  - reflexivity.
Defined.

(** *** Signup *)

(** What [signup] leaves in the store: the store as it was, or one more
    user, written from the payload under an email that was not there. *)
Lemma signup_store
      {hasher : Werkzeug.Hasher} (data : signup_data) (salt : string) (w : world) :
  db (snd (signup data salt w)) = db w \/
  exists email password first_name,
    su_email data = Some email /\
    su_password data = Some password /\
    su_first_name data = Some first_name /\
    unregistered email (db w) /\
    db (snd (signup data salt w)) =
      with_users (db w)
        (users (db w)
           ++ [signed_up email password first_name (su_last_name data) salt (db w)]).
Proof.
  destruct data as [[email|] password first_name last_name];
    [|left; reflexivity].
  destruct (String.eqb_spec email "") as [->|He]; [left; reflexivity|].
  destruct (existsb (fun u => (User.email u =? email)%string) (users (db w))) eqn:Hex.
  - left. apply String.eqb_neq in He.
    unfold signup. cbn [su_email su_password su_first_name su_last_name Py.truthy].
    rewrite He. cbn [negb]. unfold bind, item, select, ret. cbn [db executed].
    destruct (filter (fun u => (User.email u =? email)%string) (users (db w)))
      as [|u [|u' rest]]; cbv beta iota delta [scalar_one_or_none ret raise];
      try reflexivity.
    destruct password as [password|]; [|reflexivity].
    unfold add_user. cbn [db executed]. rewrite Hex.
    now destruct first_name.
  - assert (Hu : unregistered email (db w)).
    { intros u Hin Hmail. apply String.eqb_eq in Hmail.
      assert (Hex' : existsb (fun u => (User.email u =? email)%string) (users (db w))
                     = true) by (apply existsb_exists; now exists u).
      congruence. }
    destruct password as [password|].
    + destruct first_name as [first_name|].
      * right. exists email, password, first_name. repeat split; try assumption.
        change {| su_email := Some email; su_password := Some password;
                  su_first_name := Some first_name; su_last_name := last_name |}
          with (registration email password first_name last_name).
        now rewrite (signup_creates email password first_name last_name salt w He Hu).
      * left. apply String.eqb_neq in He.
        unfold signup. cbn [su_email su_password su_first_name su_last_name Py.truthy].
        rewrite He. cbn [negb]. unfold bind, item, select, ret. cbn [db executed].
        now rewrite (no_user_selected email (db w) Hu).
    + left. apply String.eqb_neq in He.
      unfold signup. cbn [su_email su_password su_first_name su_last_name Py.truthy].
      rewrite He. cbn [negb]. unfold bind, item, select, ret. cbn [db executed].
      now rewrite (no_user_selected email (db w) Hu).
Qed.

(** Whatever the payload and however it ends, [signup] keeps the emails
    and the ids of the user table free of duplicates. *)
Theorem signup_keeps_users_unique
        {hasher : Werkzeug.Hasher} (data : signup_data) (salt : string) (w : world) :
  unique_emails (db w) ->
  NoDup (map User.id (users (db w))) ->
  unique_emails (db (snd (signup data salt w))) /\
  NoDup (map User.id (users (db (snd (signup data salt w))))).
Proof.
  intros Hmail Hid.
  destruct (signup_store data salt w)
    as [->|(email & password & first_name & _ & _ & _ & Hu & ->)];
    [now split|].
  unfold unique_emails. cbn [with_users users]. split.
  - rewrite map_app. apply NoDup_snoc; [exact Hmail|].
    intros Hin. apply in_map_iff in Hin as (u & He & Hin). now apply (Hu u Hin).
  - now apply fresh_key_unique.
Qed.

Lemma signup_keeps_users_unique_witness :
  unique_emails
    (db (snd (@signup Reference.hasher
                (registration "bob@example.org" "pw" "Bob" None) "salt"
                (Reference.fresh ann_store)))) /\
  NoDup (map User.id
           (users (db (snd (@signup Reference.hasher
                             (registration "bob@example.org" "pw" "Bob" None) "salt"
                             (Reference.fresh ann_store)))))).
Proof.
  apply (@signup_keeps_users_unique Reference.hasher).
  - repeat constructor. intros [].
  - repeat constructor. intros [].
Defined.

(** A signup under an email that a stored user already has (compared
    exactly, case included) is answered 400 "email already taken" and
    writes nothing, whatever else the payload carries. *)
Theorem signup_taken_email
        {hasher : Werkzeug.Hasher}
        (data : signup_data) (salt : string) (u : User.t) (w : world) :
  unique_emails (db w) ->
  In u (users (db w)) ->
  User.email u <> "" ->
  su_email data = Some (User.email u) ->
  signup data salt w =
  (Ret (Detail "email already taken", 400), executed (SELECT user_table) w).
Proof.
  intros Hnd Hin He Hdata. apply String.eqb_neq in He.
  unfold signup. rewrite Hdata. cbn [Py.truthy]. rewrite He. cbn [negb].
  unfold bind, item, select, ret. cbn [db executed].
  now rewrite (unique_row_selected (users (db w)) u Hnd Hin).
Qed.

Lemma signup_taken_email_witness :
  @signup Reference.hasher (registration "ann@example.org" "other" "Ann" None) "salt"
    (Reference.fresh ann_store) =
  (Ret (Detail "email already taken", 400),
   executed (SELECT user_table) (Reference.fresh ann_store)).
Proof.
  apply (@signup_taken_email Reference.hasher _ "salt" ann (Reference.fresh ann_store)).
  - repeat constructor. intros [].
  - now left.
  - discriminate.
  - reflexivity.
Defined.

(** The comparison of emails in [signup] is exact: an email that differs
    from every stored one, be it only in the case of a letter, is
    registered as a further user. *)
Theorem signup_email_case_sensitive
        {hasher : Werkzeug.Hasher}
        (email password first_name : string) (last_name : option string)
        (salt : string) (u : User.t) (w : world) :
  email <> "" ->
  unregistered email (db w) ->
  In u (users (db w)) ->
  lower (User.email u) = lower email ->
  exists w',
    signup (registration email password first_name last_name) salt w =
      (Ret (Detail "user created successfully", 201), w') /\
    exists u', In u (users (db w')) /\ In u' (users (db w')) /\
               User.email u' = email /\ User.id u' <> User.id u /\
               lower (User.email u') = lower (User.email u).
Proof.
  intros He Hu Hin Hlow.
  rewrite (signup_creates email password first_name last_name salt w He Hu).
  eexists. split; [reflexivity|].
  exists (signed_up email password first_name last_name salt (db w)).
  cbn [db with_users users]. rewrite !in_app_iff. repeat split.
  - now left.
  - right. now left.
  - cbn [signed_up User.id].
    pose proof (next_id_above User.id (users (db w)) u Hin). lia.
  - now symmetry.
Qed.

Lemma signup_email_case_sensitive_witness :
  exists w',
    @signup Reference.hasher (registration "Ann@example.org" "pw" "Ann" None) "salt"
      (Reference.fresh ann_store) =
      (Ret (Detail "user created successfully", 201), w') /\
    exists u', In ann (users (db w')) /\ In u' (users (db w')) /\
               User.email u' = "Ann@example.org" /\ User.id u' <> User.id ann /\
               lower (User.email u') = lower (User.email ann).
Proof.
  apply (@signup_email_case_sensitive Reference.hasher).
  - discriminate.
  - intros v [<-|[]]. discriminate.
  - now left.
  - reflexivity.
Defined.

(** *** Pets: creation *)

Lemma pet_to_dict_rows (pet : Pet.t) (w : world) :
  pet_to_dict pet w =
  match scalar (filter (fun s => Species.id s =? Pet.species_id pet) (species (db w))) with
  | None => (Raise Py.AttributeError, executed (SELECT species_table) w)
  | Some s =>
      (Ret {| pd_id := Pet.id pet;
              pd_name := Pet.name pet;
              pd_owner_id := Pet.owner_id pet;
              pd_age := Pet.age pet;
              pd_species := Species.name s |},
       executed (SELECT species_table) w)
  end.
Proof.
  unfold pet_to_dict, bind, select. cbn [db executed].
  now destruct (scalar (filter (fun s => Species.id s =? Pet.species_id pet)
                               (species (db w)))).
Qed.

(** The row that [create_pet] writes. *)
Definition created_pet (name : string) (owner_id age species_id : Z) (s : store) : Pet.t :=
  Pet.Build (next_id Pet.id (pets s)) name owner_id age species_id.

(** [create_pet] when no stored pet has the triple: the row is committed
    and then turned into a dictionary. *)
Lemma create_pet_inserts (name : string) (owner_id age species_id : Z) (w : world) :
  scalar (filter (same_tripleb name owner_id species_id) (pets (db w))) = None ->
  create_pet (new_pet name owner_id age species_id) w =
  (d <- pet_to_dict (created_pet name owner_id age species_id (db w)) ;;
   ret (PetBody d, 201))
    {| db := with_pets (db w)
               (pets (db w) ++ [created_pet name owner_id age species_id (db w)]);
       log := ((log w ++ [SELECT pet_table]) ++ [COMMIT])%list |}.
Proof.
  intros Hs. rewrite create_pet_unfold, Hs. reflexivity.
Qed.

Lemma no_triple_selected (name : string) (owner_id species_id : Z) (s : store) :
  (forall p, In p (pets s) -> ~ same_triple name owner_id species_id p) ->
  scalar (filter (same_tripleb name owner_id species_id) (pets s)) = None.
Proof.
  intros H. apply scalar_filter_absent. intros p Hp.
  destruct (same_tripleb name owner_id species_id p) eqn:E; [|reflexivity].
  apply same_tripleb_spec in E. now destruct (H p Hp).
Qed.

(** A body that lacks one of the four fields is answered 400 before the
    store is touched: the response names a field that is missing, and no
    statement is executed, whatever the store holds. *)
Theorem create_pet_missing_field (data : pet_data) (w : world) :
  pt_name data = None \/ pt_owner_id data = None \/
  pt_age data = None \/ pt_species_id data = None ->
  exists field,
    create_pet data w = (Ret (field_is_required field), w) /\
    In field pet_required_fields /\
    pet_data_has data field = false.
Proof.
  intros H. destruct data as [name owner_id age species_id]. cbn in H.
  destruct name as [name|];
    [|exists "name"; repeat split; cbn; tauto].
  destruct owner_id as [owner_id|];
    [|exists "owner_id"; repeat split; cbn; tauto].
  destruct age as [age|];
    [|exists "age"; repeat split; cbn; tauto].
  destruct species_id as [species_id|];
    [|exists "species_id"; repeat split; cbn; tauto].
  exfalso. intuition discriminate.
Qed.

Lemma create_pet_missing_field_witness :
  exists field,
    create_pet {| pt_name := Some "Rex"; pt_owner_id := Some 1;
                  pt_age := None; pt_species_id := None |}
               (Reference.fresh rex_store) =
      (Ret (field_is_required field), Reference.fresh rex_store) /\
    In field pet_required_fields /\
    pet_data_has {| pt_name := Some "Rex"; pt_owner_id := Some 1;
                    pt_age := None; pt_species_id := None |} field = false.
Proof.
  apply (create_pet_missing_field _ (Reference.fresh rex_store)).
  right. right. now left.
Defined.

(** Creation of a pet whose triple is new and which refers to a stored
    owner and a stored species (species ids being unique) is answered 201
    with the dictionary of the new pet, the species given by name; the
    store gains exactly that row, under a key no other pet has, and the
    other tables are as before. *)
Theorem create_pet_created
        (name : string) (owner_id age species_id : Z) (sp : Species.t) (w : world) :
  (forall p, In p (pets (db w)) -> ~ same_triple name owner_id species_id p) ->
  (exists o, In o (owners (db w)) /\ Owner.id o = owner_id) ->
  NoDup (map Species.id (species (db w))) ->
  In sp (species (db w)) ->
  Species.id sp = species_id ->
  exists (pet : Pet.t) (w' : world),
    create_pet (new_pet name owner_id age species_id) w =
      (Ret (PetBody {| pd_id := Pet.id pet; pd_name := name; pd_owner_id := owner_id;
                       pd_age := age; pd_species := Species.name sp |}, 201), w')
    /\ pet = Pet.Build (Pet.id pet) name owner_id age species_id
    /\ (forall p, In p (pets (db w)) -> Pet.id p < Pet.id pet)
    /\ db w' = with_pets (db w) (pets (db w) ++ [pet]).
Proof.
  intros Hnew _ Hnd Hin Hid.
  exists (created_pet name owner_id age species_id (db w)). eexists.
  rewrite (create_pet_inserts name owner_id age species_id w
             (no_triple_selected name owner_id species_id (db w) Hnew)).
  unfold bind. rewrite pet_to_dict_rows.
  cbn [db with_pets species created_pet Pet.species_id].
  rewrite <- Hid, (unique_key_selected Species.id (species (db w)) sp Hnd Hin).
  cbn [scalar hd_error ret created_pet Pet.id Pet.name Pet.owner_id Pet.age].
  repeat split.
  intros p Hp. apply (next_id_above Pet.id (pets (db w)) p Hp).
Qed.

Lemma create_pet_created_witness :
  exists (pet : Pet.t) (w' : world),
    create_pet (new_pet "Bella" 1 4 2) (Reference.fresh rex_store) =
      (Ret (PetBody {| pd_id := Pet.id pet; pd_name := "Bella"; pd_owner_id := 1;
                       pd_age := 4; pd_species := "Canine" |}, 201), w')
    /\ pet = Pet.Build (Pet.id pet) "Bella" 1 4 2
    /\ (forall p, In p (pets rex_store) -> Pet.id p < Pet.id pet)
    /\ db w' = with_pets rex_store (pets rex_store ++ [pet]).
Proof.
  apply (create_pet_created "Bella" 1 4 2 (Species.Build 2 "Canine")
           (Reference.fresh rex_store)).
  - intros p [<-|[]] (H & _). discriminate H.
  - eexists. split; [now left | reflexivity].
  - repeat constructor. intros [].
  - now left.
  - reflexivity.
Defined.

(** *** Pets: the invariants of the table *)

(** No two pets share name (up to case), owner and species. *)
Definition triple (p : Pet.t) : string * Z * Z :=
  (lower (Pet.name p), Pet.owner_id p, Pet.species_id p).

Definition triples_unique (s : store) : Prop := NoDup (map triple (pets s)).

Definition pet_ids_unique (s : store) : Prop := NoDup (map Pet.id (pets s)).

Lemma same_triple_triple (name : string) (owner_id species_id : Z) (p : Pet.t) :
  same_triple name owner_id species_id p <->
  triple p = (lower name, owner_id, species_id).
Proof.
  unfold same_triple, triple. split.
  - intros (-> & -> & ->). reflexivity.
  - intros [= -> -> ->]. repeat split.
Qed.

Lemma keeps_pet_to_dict (pet : Pet.t) (w : world) :
  db (snd (pet_to_dict pet w)) = db w.
Proof.
  rewrite pet_to_dict_rows.
  now destruct (scalar (filter (fun s => Species.id s =? Pet.species_id pet)
                               (species (db w)))).
Qed.

(** What [create_pet] leaves in the store: the store as it was, or one
    more pet whose triple no stored pet had. *)
Lemma create_pet_store (data : pet_data) (w : world) :
  db (snd (create_pet data w)) = db w \/
  exists name owner_id age species_id,
    data = new_pet name owner_id age species_id /\
    (forall p, In p (pets (db w)) -> ~ same_triple name owner_id species_id p) /\
    db (snd (create_pet data w)) =
      with_pets (db w) (pets (db w) ++ [created_pet name owner_id age species_id (db w)]).
Proof.
  destruct data as [[name|] [owner_id|] [age|] [species_id|]];
    try (left; reflexivity).
  change {| pt_name := Some name; pt_owner_id := Some owner_id;
            pt_age := Some age; pt_species_id := Some species_id |}
    with (new_pet name owner_id age species_id).
  destruct (scalar (filter (same_tripleb name owner_id species_id) (pets (db w))))
    as [p|] eqn:Hs.
  - left. rewrite create_pet_unfold, Hs. reflexivity.
  - right. exists name, owner_id, age, species_id. split; [reflexivity|]. split.
    + intros p Hp Hsame. apply same_tripleb_spec in Hsame.
      pose proof (scalar_none_filter _ _ p Hs Hp). congruence.
    + rewrite (create_pet_inserts name owner_id age species_id w Hs).
      unfold bind.
      match goal with
      | |- context [pet_to_dict ?pet ?w1] =>
          pose proof (keeps_pet_to_dict pet w1) as Hk;
          destruct (pet_to_dict pet w1) as [[d|e] w2]
      end; exact Hk.
Qed.

(** Whatever the body and however the request ends, [create_pet] keeps
    the triples of the pet table pairwise distinct and its keys unique. *)
Theorem create_pet_keeps_table_unique (data : pet_data) (w : world) :
  triples_unique (db w) ->
  pet_ids_unique (db w) ->
  triples_unique (db (snd (create_pet data w))) /\
  pet_ids_unique (db (snd (create_pet data w))).
Proof.
  intros Ht Hi.
  destruct (create_pet_store data w)
    as [->|(name & owner_id & age & species_id & _ & Hnew & ->)]; [now split|].
  unfold triples_unique, pet_ids_unique. cbn [with_pets pets]. split.
  - rewrite map_app. apply NoDup_snoc; [exact Ht|].
    intros Hin. apply in_map_iff in Hin as (p & Hp & Hin).
    apply (Hnew p Hin). apply same_triple_triple. exact Hp.
  - now apply fresh_key_unique.
Qed.

Lemma create_pet_keeps_table_unique_witness :
  triples_unique (db (snd (create_pet (new_pet "Bella" 1 4 2) (Reference.fresh rex_store))))
  /\
  pet_ids_unique (db (snd (create_pet (new_pet "Bella" 1 4 2) (Reference.fresh rex_store)))).
Proof.
  apply create_pet_keeps_table_unique.
  - repeat constructor. intros [].
  - repeat constructor. intros [].
Defined.

(** *** Pets: update *)

Lemma scalar_filter_in {A} (p : A -> bool) (rows : list A) (r : A) :
  scalar (filter p rows) = Some r -> In r rows /\ p r = true.
Proof.
  intros H.
  assert (Hin : In r (filter p rows)).
  { destruct (filter p rows) as [|r0 rest]; [discriminate|].
    injection H as ->. now left. }
  now apply filter_In in Hin.
Qed.

Lemma unique_key_scalar {A} (key : A -> Z) (rows : list A) (r : A) :
  NoDup (map key rows) ->
  In r rows ->
  scalar (filter (fun x => key x =? key r) rows) = Some r.
Proof.
  intros Hnd Hin. now rewrite (unique_key_selected key rows r Hnd Hin).
Qed.

(** A body with the four fields and, when [key] is given, the id key. *)
Definition pet_update (key : option Z) (name : string) (owner_id age species_id : Z)
  : pet_update_data :=
  {| pu_fields := new_pet name owner_id age species_id; pu_id := key |}.

(** The row that [update_pet] writes over [pet]. *)
Definition updated_pet (key : option Z) (name : string) (owner_id age species_id : Z)
           (pet : Pet.t) : Pet.t :=
  Pet.Build (setattr (Pet.id pet) key) name owner_id age species_id.

(** Another row than the one loaded under [key] has the id [new_key]. *)
Definition key_taken {A} (id : A -> Z) (key new_key : Z) (rows : list A) : bool :=
  existsb (fun r => negb (id r =? key) && (id r =? new_key)) rows.

Lemma key_taken_spec {A} (id : A -> Z) (key new_key : Z) (rows : list A) :
  key_taken id key new_key rows = false <->
  forall r, In r rows -> id r <> key -> id r <> new_key.
Proof.
  unfold key_taken. split.
  - intros H r Hr Hne He.
    assert (Hex : existsb (fun r => negb (id r =? key) && (id r =? new_key)) rows = true).
    { apply existsb_exists. exists r. split; [exact Hr|].
      apply Z.eqb_neq in Hne. apply Z.eqb_eq in He. now rewrite Hne, He. }
    congruence.
  - intros H. destruct (existsb _ rows) eqn:E; [|reflexivity].
    apply existsb_exists in E as (r & Hr & He).
    apply andb_true_iff in He as [Hne He].
    apply negb_true_iff, Z.eqb_neq in Hne. apply Z.eqb_eq in He.
    now destruct (H r Hr Hne).
Qed.

Lemma own_key_free {A} (id : A -> Z) (key : Z) (rows : list A) :
  key_taken id key key rows = false.
Proof. apply key_taken_spec. now intros r _ H. Qed.

(** [update_pet] for a stored pet and a body with the four fields: the
    table refuses an id that another pet has; otherwise the row is
    rewritten under the key it was loaded with and then turned into a
    dictionary. *)
Lemma update_pet_rewrites
      (pet_id : Z) (key : option Z) (name : string) (owner_id age species_id : Z)
      (pet : Pet.t) (w : world) :
  scalar (filter (fun p => Pet.id p =? pet_id) (pets (db w))) = Some pet ->
  update_pet pet_id (pet_update key name owner_id age species_id) w =
  if key_taken Pet.id (Pet.id pet) (setattr (Pet.id pet) key) (pets (db w))
  then (Raise Py.IntegrityError, executed (SELECT pet_table) w)
  else
    (d <- pet_to_dict (updated_pet key name owner_id age species_id pet) ;;
     ret (PetBody d, 200))
      {| db := with_pets (db w)
                 (map (fun r => if Pet.id r =? Pet.id pet
                                then updated_pet key name owner_id age species_id pet
                                else r)
                      (pets (db w)));
         log := ((log w ++ [SELECT pet_table]) ++ [COMMIT])%list |}.
Proof.
  intros Hs. unfold update_pet. unfold bind at 1. unfold select. cbn [db executed].
  rewrite Hs.
  cbn [find pet_required_fields pet_data_has pet_update new_pet pu_fields pu_id
       String.eqb Ascii.eqb Bool.eqb is_some negb
       pt_name pt_owner_id pt_age pt_species_id].
  cbn [setattr]. fold (updated_pet key name owner_id age species_id pet).
  unfold bind at 1. unfold save_pet, commit, key_taken.
  cbn [db log executed updated_pet Pet.id].
  now destruct (existsb _ (pets (db w))).
Qed.

(** The committed update of a stored pet, the new species being stored. *)
Lemma update_pet_commits
      (key : option Z) (name : string) (owner_id age species_id : Z)
      (pet : Pet.t) (sp : Species.t) (w : world) :
  NoDup (map Pet.id (pets (db w))) ->
  In pet (pets (db w)) ->
  (forall r, In r (pets (db w)) -> Pet.id r <> Pet.id pet ->
             Pet.id r <> setattr (Pet.id pet) key) ->
  NoDup (map Species.id (species (db w))) ->
  In sp (species (db w)) ->
  Species.id sp = species_id ->
  update_pet (Pet.id pet) (pet_update key name owner_id age species_id) w =
  (Ret (PetBody {| pd_id := setattr (Pet.id pet) key; pd_name := name;
                   pd_owner_id := owner_id; pd_age := age;
                   pd_species := Species.name sp |}, 200),
   executed (SELECT species_table)
     {| db := with_pets (db w)
                (map (fun r => if Pet.id r =? Pet.id pet
                               then updated_pet key name owner_id age species_id pet
                               else r)
                     (pets (db w)));
        log := ((log w ++ [SELECT pet_table]) ++ [COMMIT])%list |}).
Proof.
  intros Hids Hin Hfree Hnd Hsp Hid.
  rewrite (update_pet_rewrites (Pet.id pet) key name owner_id age species_id pet w
             (unique_key_scalar Pet.id (pets (db w)) pet Hids Hin)).
  rewrite (proj2 (key_taken_spec Pet.id _ _ _) Hfree).
  unfold bind. rewrite pet_to_dict_rows.
  cbn [db with_pets species updated_pet Pet.species_id].
  rewrite <- Hid, (unique_key_selected Species.id (species (db w)) sp Hnd Hsp).
  reflexivity.
Qed.

(** An update of a stored pet with the four fields, the new species being
    stored.  When the body carries an id that another pet has, the primary
    key refuses the commit: the handler ends with an uncaught
    [IntegrityError] and no row is changed.  Otherwise the update is
    answered 200 with the dictionary of the new values; the row has the id
    of the body when the body carries one and keeps its id when it does
    not; every other row, and the number of rows, is as before. *)
Theorem update_pet_updates
        (key : option Z) (name : string) (owner_id age species_id : Z)
        (pet : Pet.t) (sp : Species.t) (w : world) :
  pet_ids_unique (db w) ->
  In pet (pets (db w)) ->
  NoDup (map Species.id (species (db w))) ->
  In sp (species (db w)) ->
  Species.id sp = species_id ->
  ((exists r, In r (pets (db w)) /\ Pet.id r <> Pet.id pet /\
              Pet.id r = setattr (Pet.id pet) key) ->
   update_pet (Pet.id pet) (pet_update key name owner_id age species_id) w =
     (Raise Py.IntegrityError, executed (SELECT pet_table) w))
  /\
  ((forall r, In r (pets (db w)) -> Pet.id r <> Pet.id pet ->
              Pet.id r <> setattr (Pet.id pet) key) ->
   exists w',
     update_pet (Pet.id pet) (pet_update key name owner_id age species_id) w =
       (Ret (PetBody {| pd_id := setattr (Pet.id pet) key; pd_name := name;
                        pd_owner_id := owner_id; pd_age := age;
                        pd_species := Species.name sp |}, 200), w')
     /\ pets (db w') =
          map (fun r => if Pet.id r =? Pet.id pet
                        then Pet.Build (setattr (Pet.id pet) key)
                               name owner_id age species_id
                        else r)
              (pets (db w))
     /\ In (Pet.Build (setattr (Pet.id pet) key) name owner_id age species_id)
           (pets (db w'))
     /\ (forall r, In r (pets (db w)) -> Pet.id r <> Pet.id pet -> In r (pets (db w')))
     /\ List.length (pets (db w')) = List.length (pets (db w))
     /\ users (db w') = users (db w)
     /\ owners (db w') = owners (db w)
     /\ species (db w') = species (db w)).
Proof.
  intros Hids Hin Hnd Hsp Hid. split.
  - intros (r & Hr & Hne & He).
    rewrite (update_pet_rewrites (Pet.id pet) key name owner_id age species_id pet w
               (unique_key_scalar Pet.id (pets (db w)) pet Hids Hin)).
    destruct (key_taken Pet.id (Pet.id pet) (setattr (Pet.id pet) key) (pets (db w)))
      eqn:E; [reflexivity|].
    now destruct (proj1 (key_taken_spec Pet.id _ _ _) E r Hr Hne).
  - intros Hfree. eexists.
    rewrite (update_pet_commits key name owner_id age species_id pet sp w
               Hids Hin Hfree Hnd Hsp Hid).
    split; [reflexivity|].
    cbn [db executed with_pets pets users owners species updated_pet].
    split; [reflexivity|]. split; [|split; [|split; [apply length_map | repeat split]]].
    + apply in_map_iff. exists pet. now rewrite Z.eqb_refl.
    + intros r Hr Hne. apply in_map_iff. exists r.
      apply Z.eqb_neq in Hne. now rewrite Hne.
Qed.

Definition two_pets : store :=
  {| users := [];
     owners := [Owner.Build 1 "Ann" "Lee" "1" "2" "ann@example.org"];
     species := [Species.Build 2 "Canine"];
     pets := [Pet.Build 1 "Rex" 1 3 2; Pet.Build 2 "Max" 1 5 2] |}.

Lemma update_pet_updates_witness :
  update_pet 1 (pet_update (Some 2) "Rex" 1 4 2) (Reference.fresh two_pets) =
    (Raise Py.IntegrityError, executed (SELECT pet_table) (Reference.fresh two_pets))
  /\
  (exists w',
      update_pet 1 (pet_update (Some 9) "Rex" 1 4 2) (Reference.fresh two_pets) =
        (Ret (PetBody {| pd_id := 9; pd_name := "Rex"; pd_owner_id := 1;
                         pd_age := 4; pd_species := "Canine" |}, 200), w')
      /\ pets (db w') =
           map (fun r => if Pet.id r =? 1 then Pet.Build 9 "Rex" 1 4 2 else r)
               (pets two_pets)
      /\ In (Pet.Build 9 "Rex" 1 4 2) (pets (db w'))
      /\ (forall r, In r (pets two_pets) -> Pet.id r <> 1 -> In r (pets (db w')))
      /\ List.length (pets (db w')) = List.length (pets two_pets)
      /\ users (db w') = users two_pets
      /\ owners (db w') = owners two_pets
      /\ species (db w') = species two_pets)
  /\
  (exists w',
      update_pet 1 (new_pet "Max" 1 4 2) (Reference.fresh two_pets) =
        (Ret (PetBody {| pd_id := 1; pd_name := "Max"; pd_owner_id := 1;
                         pd_age := 4; pd_species := "Canine" |}, 200), w')
      /\ pets (db w') =
           map (fun r => if Pet.id r =? 1 then Pet.Build 1 "Max" 1 4 2 else r)
               (pets two_pets)
      /\ In (Pet.Build 1 "Max" 1 4 2) (pets (db w'))
      /\ (forall r, In r (pets two_pets) -> Pet.id r <> 1 -> In r (pets (db w')))
      /\ List.length (pets (db w')) = List.length (pets two_pets)
      /\ users (db w') = users two_pets
      /\ owners (db w') = owners two_pets
      /\ species (db w') = species two_pets).
Proof.
  assert (Hids : pet_ids_unique (db (Reference.fresh two_pets)))
    by (repeat constructor; cbn; intuition discriminate).
  assert (Hnd : NoDup (map Species.id (species (db (Reference.fresh two_pets)))))
    by (repeat constructor; intros []).
  split; [|split].
  - apply (proj1 (update_pet_updates (Some 2) "Rex" 1 4 2 (Pet.Build 1 "Rex" 1 3 2)
                    (Species.Build 2 "Canine") (Reference.fresh two_pets)
                    Hids (or_introl eq_refl) Hnd (or_introl eq_refl) eq_refl)).
    exists (Pet.Build 2 "Max" 1 5 2). repeat split; [right; now left | discriminate].
  - apply (proj2 (update_pet_updates (Some 9) "Rex" 1 4 2 (Pet.Build 1 "Rex" 1 3 2)
                    (Species.Build 2 "Canine") (Reference.fresh two_pets)
                    Hids (or_introl eq_refl) Hnd (or_introl eq_refl) eq_refl)).
    intros r [<-|[<-|[]]] Hne; [now destruct Hne | discriminate].
  - apply (proj2 (update_pet_updates None "Max" 1 4 2 (Pet.Build 1 "Rex" 1 3 2)
                    (Species.Build 2 "Canine") (Reference.fresh two_pets)
                    Hids (or_introl eq_refl) Hnd (or_introl eq_refl) eq_refl)).
    intros r _ Hne. exact Hne.
Defined.

(** For a stored pet, a body that lacks one of the four fields is
    answered 400 naming a missing field, and no row is written, whether or
    not the body carries an id: the lookup comes first (an absent id is
    answered 404 even for such a body), the field test second. *)
Theorem update_pet_missing_field (data : pet_update_data) (pet : Pet.t) (w : world) :
  In pet (pets (db w)) ->
  pt_name (pu_fields data) = None \/ pt_owner_id (pu_fields data) = None \/
  pt_age (pu_fields data) = None \/ pt_species_id (pu_fields data) = None ->
  exists field,
    update_pet (Pet.id pet) data w =
      (Ret (field_is_required field), executed (SELECT pet_table) w) /\
    In field pet_required_fields /\
    pet_data_has (pu_fields data) field = false.
Proof.
  intros Hin H.
  destruct (scalar_filter_present (fun p => Pet.id p =? Pet.id pet) (pets (db w)) pet
              Hin (Z.eqb_refl _)) as [pet' Hs].
  unfold update_pet. unfold bind at 1. unfold select. cbn [db executed]. rewrite Hs.
  destruct data as [[name owner_id age species_id] key]. cbn in H.
  destruct name as [name|];
    [|exists "name"; repeat split; cbn; tauto].
  destruct owner_id as [owner_id|];
    [|exists "owner_id"; repeat split; cbn; tauto].
  destruct age as [age|];
    [|exists "age"; repeat split; cbn; tauto].
  destruct species_id as [species_id|];
    [|exists "species_id"; repeat split; cbn; tauto].
  exfalso. intuition discriminate.
Qed.

Lemma update_pet_missing_field_witness :
  exists field,
    update_pet 1 {| pt_name := Some "Max"; pt_owner_id := None;
                    pt_age := Some 4; pt_species_id := Some 2 |}
               (Reference.fresh rex_store) =
      (Ret (field_is_required field),
       executed (SELECT pet_table) (Reference.fresh rex_store)) /\
    In field pet_required_fields /\
    pet_data_has {| pt_name := Some "Max"; pt_owner_id := None;
                    pt_age := Some 4; pt_species_id := Some 2 |} field = false.
Proof.
  apply (update_pet_missing_field
           (pet_fields_only {| pt_name := Some "Max"; pt_owner_id := None;
                               pt_age := Some 4; pt_species_id := Some 2 |})
           (Pet.Build 1 "Rex" 1 3 2) (Reference.fresh rex_store)).
  - now left.
  - right. now left.
Defined.

(** What [update_pet] and [delete_pet] leave in the pet table. *)
Lemma update_pet_store (pet_id : Z) (data : pet_update_data) (w : world) :
  db (snd (update_pet pet_id data w)) = db w \/
  exists pet pet',
    (forall r, In r (pets (db w)) -> Pet.id r <> Pet.id pet -> Pet.id r <> Pet.id pet') /\
    db (snd (update_pet pet_id data w)) =
      with_pets (db w)
        (map (fun r => if Pet.id r =? Pet.id pet then pet' else r) (pets (db w))).
Proof.
  destruct (scalar (filter (fun p => Pet.id p =? pet_id) (pets (db w))))
    as [pet|] eqn:Hs.
  - destruct data as [[[name|] [owner_id|] [age|] [species_id|]] key];
      try (left; unfold update_pet; unfold bind at 1; unfold select;
           cbn [db executed]; rewrite Hs; reflexivity).
    change {| pu_fields := {| pt_name := Some name; pt_owner_id := Some owner_id;
                              pt_age := Some age; pt_species_id := Some species_id |};
              pu_id := key |}
      with (pet_update key name owner_id age species_id).
    rewrite (update_pet_rewrites pet_id key name owner_id age species_id pet w Hs).
    destruct (key_taken Pet.id (Pet.id pet) (setattr (Pet.id pet) key) (pets (db w)))
      eqn:E; [now left|].
    right. exists pet, (updated_pet key name owner_id age species_id pet).
    split; [exact (proj1 (key_taken_spec Pet.id _ _ _) E)|].
    unfold bind.
    match goal with
    | |- context [pet_to_dict ?p ?w1] =>
        pose proof (keeps_pet_to_dict p w1) as Hk;
        destruct (pet_to_dict p w1) as [[d|e] w2]
    end; exact Hk.
  - left. unfold update_pet. unfold bind at 1. unfold select. cbn [db executed].
    now rewrite Hs.
Qed.

Lemma delete_pet_rows (pet_id : Z) (w : world) :
  delete_pet pet_id w =
  match scalar (filter (fun p => Pet.id p =? pet_id) (pets (db w))) with
  | None =>
      (Ret (Detail ("pet with id " ++ Py.str pet_id ++ " not found"), 404),
       executed (SELECT pet_table) w)
  | Some pet =>
      (Ret (Detail ("pet with id " ++ Py.str pet_id ++ " deleted"), 200),
       {| db := with_pets (db w)
                  (filter (fun r => negb (Pet.id r =? Pet.id pet)) (pets (db w)));
          log := ((log w ++ [SELECT pet_table]) ++ [COMMIT])%list |})
  end.
Proof.
  unfold delete_pet, bind, select, delete_pet_row, commit, ret. cbn [db log executed].
  now destruct (scalar (filter (fun p => Pet.id p =? pet_id) (pets (db w)))).
Qed.

Lemma delete_pet_store (pet_id : Z) (w : world) :
  db (snd (delete_pet pet_id w)) = db w \/
  db (snd (delete_pet pet_id w)) =
    with_pets (db w) (filter (fun r => negb (Pet.id r =? pet_id)) (pets (db w))).
Proof.
  rewrite delete_pet_rows.
  destruct (scalar (filter (fun p => Pet.id p =? pet_id) (pets (db w))))
    as [pet|] eqn:Hs; [|now left].
  right. apply scalar_filter_in in Hs as [_ Hid]. apply Z.eqb_eq in Hid.
  now rewrite Hid.
Qed.

(** Rewriting the row of a key, under an id that no other row has, keeps
    the ids of a table unique. *)
Lemma rewritten_keys_unique {A} (id : A -> Z) (key : Z) (row : A) (rows : list A) :
  NoDup (map id rows) ->
  (forall r, In r rows -> id r <> key -> id r <> id row) ->
  NoDup (map id (map (fun r => if id r =? key then row else r) rows)).
Proof.
  induction rows as [|r0 rest IH]; cbn [map]; intros Hnd Hfree; [constructor|].
  inversion Hnd as [|k ks Hnotin Hrest]; subst. constructor.
  - intros Hin. apply in_map_iff in Hin as (y' & Hy' & Hin).
    apply in_map_iff in Hin as (y & <- & Hy).
    assert (Hy0 : id y <> id r0).
    { intros He. apply Hnotin. rewrite <- He. now apply in_map. }
    destruct (Z.eqb_spec (id r0) key) as [H0|H0];
      destruct (Z.eqb_spec (id y) key) as [H1|H1].
    + congruence.
    + apply (Hfree y (or_intror Hy) H1). exact Hy'.
    + apply (Hfree r0 (or_introl eq_refl) H0). now symmetry.
    + now apply Hy0.
  - apply IH; [exact Hrest|]. intros r Hr. apply Hfree. now right.
Qed.

Lemma filter_keeps_keys_unique {A} (key : A -> Z) (keep : A -> bool) (rows : list A) :
  NoDup (map key rows) -> NoDup (map key (filter keep rows)).
Proof.
  intros Hnd. induction rows as [|x rest IH]; cbn [map filter] in *; [constructor|].
  inversion Hnd as [|k ks Hnotin Hrest]; subst.
  destruct (keep x); [|now apply IH]. cbn [map]. constructor; [|now apply IH].
  intros Hin. apply Hnotin. apply in_map_iff in Hin as (z & Hz & Hin).
  apply filter_In in Hin as [Hin _]. rewrite <- Hz. now apply in_map.
Qed.

(** Whatever the request (with or without an id in the body of the
    update) and however it ends, [update_pet] and [delete_pet] keep the
    keys of the pet table unique: an update to an id that another pet has
    is refused by the primary key. *)
Theorem update_delete_keep_pet_ids_unique
        (pet_id : Z) (data : pet_update_data) (w : world) :
  pet_ids_unique (db w) ->
  pet_ids_unique (db (snd (update_pet pet_id data w))) /\
  pet_ids_unique (db (snd (delete_pet pet_id w))).
Proof.
  intros Hi. unfold pet_ids_unique. split.
  - destruct (update_pet_store pet_id data w) as [->|(pet & pet' & Hfree & ->)];
      [exact Hi|].
    cbn [with_pets pets]. now apply rewritten_keys_unique.
  - destruct (delete_pet_store pet_id w) as [->| ->]; [exact Hi|].
    cbn [with_pets pets]. now apply filter_keeps_keys_unique.
Qed.

Lemma update_delete_keep_pet_ids_unique_witness :
  pet_ids_unique
    (db (snd (update_pet 1 (pet_update (Some 9) "Max" 1 4 2) (Reference.fresh two_pets))))
  /\ pet_ids_unique (db (snd (delete_pet 1 (Reference.fresh two_pets)))).
Proof.
  apply update_delete_keep_pet_ids_unique.
  repeat constructor; cbn; intuition discriminate.
Defined.

Lemma repeated_image {A B} (f : A -> B) (l : list A) (x y : A) :
  In x l -> In y l -> x <> y -> f x = f y -> ~ NoDup (map f l).
Proof.
  intros Hx Hy Hne Hf Hnd.
  induction l as [|r rest IH]; [contradiction|].
  cbn [map] in Hnd. inversion Hnd as [|t ts Hnotin Hrest]; subst.
  destruct Hx as [Hx|Hx]; destruct Hy as [Hy|Hy].
  - apply Hne. congruence.
  - apply Hnotin. rewrite Hx, Hf. now apply in_map.
  - apply Hnotin. rewrite Hy, <- Hf. now apply in_map.
  - now apply IH.
Qed.

(** [update_pet] does not repeat the uniqueness test of [create_pet]: a
    stored pet can be given the name, owner and species of another stored
    pet; the request is answered 200 and the table then holds the same
    triple twice. *)
Theorem update_pet_can_repeat_triple
        (p q : Pet.t) (age : Z) (sp : Species.t) (w : world) :
  pet_ids_unique (db w) ->
  In p (pets (db w)) ->
  In q (pets (db w)) ->
  Pet.id p <> Pet.id q ->
  NoDup (map Species.id (species (db w))) ->
  In sp (species (db w)) ->
  Species.id sp = Pet.species_id p ->
  exists b w',
    update_pet (Pet.id q) (new_pet (Pet.name p) (Pet.owner_id p) age (Pet.species_id p)) w =
      (Ret (b, 200), w')
    /\ ~ triples_unique (db w').
Proof.
  intros Hids Hp Hq Hne Hnd Hsp Hid.
  pose proof (update_pet_commits None (Pet.name p) (Pet.owner_id p) age (Pet.species_id p)
                q sp w Hids Hq (fun r _ H => H) Hnd Hsp Hid) as Hupd.
  eexists. eexists. split; [exact Hupd|].
  cbn [db executed with_pets].
  apply (repeated_image triple _ p
           (Pet.Build (Pet.id q) (Pet.name p) (Pet.owner_id p) age (Pet.species_id p))).
  - cbn [pets]. apply in_map_iff. exists p.
    apply Z.eqb_neq in Hne. now rewrite Hne.
  - cbn [pets]. apply in_map_iff. exists q. now rewrite Z.eqb_refl.
  - intros H. apply Hne. now rewrite H.
  - reflexivity.
Qed.

Lemma update_pet_can_repeat_triple_witness :
  exists b w',
    update_pet 2 (new_pet "Rex" 1 5 2) (Reference.fresh two_pets) = (Ret (b, 200), w')
    /\ ~ triples_unique (db w').
Proof.
  apply (update_pet_can_repeat_triple (Pet.Build 1 "Rex" 1 3 2) (Pet.Build 2 "Max" 1 5 2)
           5 (Species.Build 2 "Canine") (Reference.fresh two_pets)).
  - repeat constructor; cbn; intuition discriminate.
  - now left.
  - right. now left.
  - discriminate.
  - repeat constructor. intros [].
  - now left.
  - reflexivity.
Defined.

(** *** Pets: delete and lookup *)

(** Deleting a stored pet is answered 200; the pet table is then the old
    one without the rows of that id, every other row is kept in order, the
    other tables are as before, and a second delete of the same id is
    answered 404. *)
Theorem delete_pet_deletes (pet : Pet.t) (w : world) :
  In pet (pets (db w)) ->
  exists w',
    delete_pet (Pet.id pet) w =
      (Ret (Detail ("pet with id " ++ Py.str (Pet.id pet) ++ " deleted"), 200), w')
    /\ pets (db w') = filter (fun r => negb (Pet.id r =? Pet.id pet)) (pets (db w))
    /\ ~ In pet (pets (db w'))
    /\ users (db w') = users (db w)
    /\ owners (db w') = owners (db w)
    /\ species (db w') = species (db w)
    /\ delete_pet (Pet.id pet) w' =
         (Ret (Detail ("pet with id " ++ Py.str (Pet.id pet) ++ " not found"), 404),
          executed (SELECT pet_table) w').
Proof.
  intros Hin.
  destruct (scalar_filter_present (fun p => Pet.id p =? Pet.id pet) (pets (db w)) pet
              Hin (Z.eqb_refl _)) as [pet' Hs].
  pose proof (scalar_filter_in _ _ _ Hs) as [_ Hid]. apply Z.eqb_eq in Hid.
  eexists. rewrite delete_pet_rows, Hs, Hid. split; [reflexivity|].
  cbn [db with_pets pets users owners species].
  split; [reflexivity|]. split; [|repeat split].
  - intros H. apply filter_In in H as [_ H]. now rewrite Z.eqb_refl in H.
  - rewrite delete_pet_rows. cbn [db with_pets pets].
    rewrite scalar_filter_absent; [reflexivity|].
    intros r Hr. apply filter_In in Hr as [_ Hr].
    now apply negb_true_iff in Hr.
Qed.

Lemma delete_pet_deletes_witness :
  exists w',
    delete_pet 1 (Reference.fresh two_pets) =
      (Ret (Detail ("pet with id " ++ Py.str 1 ++ " deleted"), 200), w')
    /\ pets (db w') = filter (fun r => negb (Pet.id r =? 1)) (pets two_pets)
    /\ ~ In (Pet.Build 1 "Rex" 1 3 2) (pets (db w'))
    /\ users (db w') = users two_pets
    /\ owners (db w') = owners two_pets
    /\ species (db w') = species two_pets
    /\ delete_pet 1 w' =
         (Ret (Detail ("pet with id " ++ Py.str 1 ++ " not found"), 404),
          executed (SELECT pet_table) w').
Proof.
  apply (delete_pet_deletes (Pet.Build 1 "Rex" 1 3 2) (Reference.fresh two_pets)).
  now left.
Defined.

Lemma get_pet_rows (pet_id : Z) (w : world) :
  get_pet pet_id w =
  match scalar (filter (fun p => Pet.id p =? pet_id) (pets (db w))) with
  | None => (Ret (Detail "Pet not found", 404), executed (SELECT pet_table) w)
  | Some pet =>
      (d <- pet_to_dict pet ;; ret (PetBody d, 200)) (executed (SELECT pet_table) w)
  end.
Proof.
  unfold get_pet. unfold bind at 1. unfold select. cbn [db executed].
  now destruct (scalar (filter (fun p => Pet.id p =? pet_id) (pets (db w)))).
Qed.

(** A pet that [create_pet] answered with 201 can be fetched: [get_pet]
    for the id of the answer returns, with status 200, the dictionary that
    the creation returned. *)
Theorem get_pet_after_create (data : pet_data) (d : pet_dict) (w w1 : world) :
  create_pet data w = (Ret (PetBody d, 201), w1) ->
  exists w2,
    get_pet (pd_id d) w1 = (Ret (PetBody d, 200), w2) /\ db w2 = db w1.
Proof.
  intros Hcreate.
  destruct data as [[name|] [owner_id|] [age|] [species_id|]];
    try discriminate Hcreate.
  change {| pt_name := Some name; pt_owner_id := Some owner_id;
            pt_age := Some age; pt_species_id := Some species_id |}
    with (new_pet name owner_id age species_id) in *.
  rewrite create_pet_unfold in Hcreate.
  destruct (scalar (filter (same_tripleb name owner_id species_id) (pets (db w))))
    as [p|] eqn:Hs; [discriminate Hcreate|].
  unfold bind at 1 in Hcreate. unfold add_pet in Hcreate. cbn [db log executed] in Hcreate.
  fold (created_pet name owner_id age species_id (db w)) in Hcreate.
  set (pet := created_pet name owner_id age species_id (db w)) in *.
  unfold bind in Hcreate. rewrite pet_to_dict_rows in Hcreate.
  cbn [db with_pets species] in Hcreate.
  destruct (scalar (filter (fun s => Species.id s =? Pet.species_id pet) (species (db w))))
    as [sp|] eqn:Hsp; [|discriminate Hcreate].
  injection Hcreate as <- <-.
  eexists. rewrite get_pet_rows.
  cbn [pd_id db executed with_pets pets].
  change (next_id Pet.id (pets (db w))) with (Pet.id pet).
  rewrite (fresh_key_selected Pet.id (pets (db w)) pet eq_refl).
  cbn [scalar hd_error]. unfold bind. rewrite pet_to_dict_rows.
  cbn [db executed with_pets species]. rewrite Hsp. split; reflexivity.
Qed.

Lemma get_pet_after_create_witness :
  exists w2,
    get_pet 2 (snd (create_pet (new_pet "Bella" 1 4 2) (Reference.fresh rex_store))) =
      (Ret (PetBody {| pd_id := 2; pd_name := "Bella"; pd_owner_id := 1;
                       pd_age := 4; pd_species := "Canine" |}, 200), w2)
    /\ db w2 =
       db (snd (create_pet (new_pet "Bella" 1 4 2) (Reference.fresh rex_store))).
Proof.
  apply (get_pet_after_create (new_pet "Bella" 1 4 2)
           {| pd_id := 2; pd_name := "Bella"; pd_owner_id := 1;
              pd_age := 4; pd_species := "Canine" |}
           (Reference.fresh rex_store)).
  reflexivity.
Defined.

(** *** Listing pets *)

(** The dictionary of a pet in a given store, when its species is there. *)
Definition pet_dict_of (s : store) (pet : Pet.t) : option pet_dict :=
  match scalar (filter (fun sp => Species.id sp =? Pet.species_id pet) (species s)) with
  | Some sp =>
      Some {| pd_id := Pet.id pet;
              pd_name := Pet.name pet;
              pd_owner_id := Pet.owner_id pet;
              pd_age := Pet.age pet;
              pd_species := Species.name sp |}
  | None => None
  end.

Lemma pet_to_dict_of (pet : Pet.t) (w : world) :
  pet_to_dict pet w =
  match pet_dict_of (db w) pet with
  | Some d => (Ret d, executed (SELECT species_table) w)
  | None => (Raise Py.AttributeError, executed (SELECT species_table) w)
  end.
Proof.
  rewrite pet_to_dict_rows. unfold pet_dict_of.
  now destruct (scalar (filter (fun sp => Species.id sp =? Pet.species_id pet)
                               (species (db w)))).
Qed.

Lemma filter_all {A} (l : list A) : filter (fun _ => true) l = l.
Proof. induction l as [|x rest IH]; cbn [filter]; [reflexivity | now rewrite IH]. Qed.

Lemma mapM_pet_to_dict_all (rows : list Pet.t) :
  forall w : world,
    (forall p, In p rows -> pet_dict_of (db w) p <> None) ->
    exists ds w',
      mapM pet_to_dict rows w = (Ret ds, w') /\
      db w' = db w /\
      map Some ds = map (pet_dict_of (db w)) rows.
Proof.
  induction rows as [|p rest IH]; intros w Hall.
  - exists [], w. repeat split.
  - cbn [mapM]. unfold bind at 1. rewrite pet_to_dict_of.
    destruct (pet_dict_of (db w) p) as [d|] eqn:Hd;
      [|now destruct (Hall p (or_introl eq_refl))].
    destruct (IH (executed (SELECT species_table) w)) as (ds & w' & Hm & Hdb & Hds).
    { intros q Hq. apply Hall. now right. }
    exists (d :: ds), w'. unfold bind, ret. rewrite Hm. repeat split.
    + exact Hdb.
    + cbn [map]. rewrite Hd. f_equal. exact Hds.
Qed.

Lemma mapM_pet_to_dict_fails (rows : list Pet.t) :
  forall (w : world) (p : Pet.t),
    In p rows ->
    pet_dict_of (db w) p = None ->
    exists w', mapM pet_to_dict rows w = (Raise Py.AttributeError, w') /\ db w' = db w.
Proof.
  induction rows as [|q rest IH]; intros w p Hin Hnone; [contradiction|].
  cbn [mapM]. unfold bind at 1. rewrite pet_to_dict_of.
  destruct (pet_dict_of (db w) q) as [d|] eqn:Hd.
  - destruct Hin as [->|Hin]; [congruence|].
    destruct (IH (executed (SELECT species_table) w) p Hin Hnone) as (w' & Hm & Hdb).
    exists w'. unfold bind. rewrite Hm. now split.
  - eexists. split; reflexivity.
Qed.

(** [get_pets] returns the dictionaries of all stored pets, in the order
    of the table, when every pet has its species row; when one pet has
    none, the whole listing ends with an uncaught [AttributeError].  The
    store is as before in both cases. *)
Theorem get_pets_lists_all (w : world) :
  ((forall p, In p (pets (db w)) -> pet_dict_of (db w) p <> None) ->
   exists ds w',
     get_pets w = (Ret ds, w') /\
     db w' = db w /\
     map Some ds = map (pet_dict_of (db w)) (pets (db w)))
  /\
  (forall p,
      In p (pets (db w)) ->
      pet_dict_of (db w) p = None ->
      exists w', get_pets w = (Raise Py.AttributeError, w') /\ db w' = db w).
Proof.
  unfold get_pets, bind, select. cbn [db executed]. rewrite filter_all. split.
  - intros Hall.
    destruct (mapM_pet_to_dict_all (pets (db w)) (executed (SELECT pet_table) w) Hall)
      as (ds & w' & Hm & Hdb & Hds).
    exists ds, w'. now rewrite Hm.
  - intros p Hin Hnone.
    destruct (mapM_pet_to_dict_fails (pets (db w)) (executed (SELECT pet_table) w)
                p Hin Hnone) as (w' & Hm & Hdb).
    exists w'. now rewrite Hm.
Qed.

Definition stray_pet : store :=
  {| users := []; owners := []; species := [Species.Build 2 "Canine"];
     pets := [Pet.Build 1 "Rex" 1 3 2; Pet.Build 2 "Tom" 1 5 9] |}.

Lemma get_pets_lists_all_witness :
  (exists ds w',
      get_pets (Reference.fresh two_pets) = (Ret ds, w') /\
      db w' = two_pets /\
      map Some ds = map (pet_dict_of two_pets) (pets two_pets))
  /\
  (exists w',
      get_pets (Reference.fresh stray_pet) = (Raise Py.AttributeError, w') /\
      db w' = stray_pet).
Proof.
  split.
  - apply (proj1 (get_pets_lists_all (Reference.fresh two_pets))).
    intros p [<-|[<-|[]]]; discriminate.
  - apply (proj2 (get_pets_lists_all (Reference.fresh stray_pet)) (Pet.Build 2 "Tom" 1 5 9)).
    + right. now left.
    + reflexivity.
Defined.

(** *** Handlers that only read *)

(** A computation keeps the store when the database after it is the one
    before it, however it ends. *)
Definition keeps_store {A} (m : M A) : Prop := forall w, db (snd (m w)) = db w.

Lemma keeps_ret {A} (a : A) : keeps_store (ret a).
Proof. now intros w. Qed.

Lemma keeps_raise {A} (e : Py.exn) : keeps_store (@raise A e).
Proof. now intros w. Qed.

Lemma keeps_select {A} (t : table) (rows : store -> list A) (p : A -> bool) :
  keeps_store (select t rows p).
Proof. now intros w. Qed.

Lemma keeps_bind {A B} (m : M A) (k : A -> M B) :
  keeps_store m -> (forall a, keeps_store (k a)) -> keeps_store (bind m k).
Proof.
  intros Hm Hk w. unfold bind. specialize (Hm w).
  destruct (m w) as [[a|e] w1]; cbn [snd] in *.
  - now rewrite (Hk a w1).
  - exact Hm.
Qed.

Lemma keeps_item {A} (o : option A) : keeps_store (item o).
Proof. destruct o; [apply keeps_ret | apply keeps_raise]. Qed.

Lemma keeps_mapM {A B} (f : A -> M B) (l : list A) :
  (forall a, keeps_store (f a)) -> keeps_store (mapM f l).
Proof.
  intros Hf. induction l as [|x rest IH]; cbn [mapM]; [apply keeps_ret|].
  apply keeps_bind; [apply Hf|]. intros y.
  apply keeps_bind; [exact IH|]. intros ys. apply keeps_ret.
Qed.

Lemma keeps_pet_dict (pet : Pet.t) : keeps_store (pet_to_dict pet).
Proof. intros w. apply keeps_pet_to_dict. Qed.

Lemma keeps_owner_dict (owner : Owner.t) : keeps_store (owner_to_dict owner).
Proof.
  unfold owner_to_dict. apply keeps_bind; [apply keeps_select|]. intros rows.
  apply keeps_bind; [apply keeps_mapM, keeps_pet_dict|]. intros ds. apply keeps_ret.
Qed.

Lemma keeps_scalar_one_or_none {A} (rows : list A) :
  keeps_store (scalar_one_or_none rows).
Proof. now destruct rows as [|r [|r' rest]]; intros w. Qed.

(** The six GET handlers, [profile] and [login] never write: however they
    end, the store after the call is the store before it. *)
Theorem readers_keep_store
        {config : Config} {codec : Jwt.Codec} {hasher : Werkzeug.Hasher}
        (key : Z) (user : User.t) (data : login_data) (now : Z) :
  keeps_store get_pets /\ keeps_store (get_pet key) /\
  keeps_store get_owners /\ keeps_store (get_owner key) /\
  keeps_store get_all_species /\ keeps_store (get_one_species key) /\
  keeps_store (profile user) /\ keeps_store (login data now).
Proof.
  repeat apply conj.
  - apply keeps_bind; [apply keeps_select | intros rows; apply keeps_mapM, keeps_pet_dict].
  - apply keeps_bind; [apply keeps_select|]. intros rows.
    destruct (scalar rows); [|apply keeps_ret].
    apply keeps_bind; [apply keeps_pet_dict | intros d; apply keeps_ret].
  - apply keeps_bind; [apply keeps_select | intros rows; apply keeps_mapM, keeps_owner_dict].
  - apply keeps_bind; [apply keeps_select|]. intros rows.
    destruct (scalar rows); [|apply keeps_ret].
    apply keeps_bind; [apply keeps_owner_dict | intros d; apply keeps_ret].
  - apply keeps_bind; [apply keeps_select | intros rows; apply keeps_ret].
  - apply keeps_bind; [apply keeps_select|]. intros rows.
    destruct (scalar rows); apply keeps_ret.
  - apply keeps_ret.
  - unfold login.
    destruct (negb (Py.truthy (lg_email data)) || negb (Py.truthy (lg_password data)));
      [apply keeps_ret|].
    apply keeps_bind; [apply keeps_item|]. intros email.
    apply keeps_bind; [apply keeps_item|]. intros password.
    apply keeps_bind; [apply keeps_select|]. intros rows.
    apply keeps_bind; [apply keeps_scalar_one_or_none|]. intros [u|]; [|apply keeps_ret].
    destruct (negb (Werkzeug.check_password_hash (User.password u) password));
      apply keeps_ret.
Qed.

(** *** Species *)

Definition named (name : string) : species_data := {| sp_name := Some name |}.

(** The row that [create_species] writes. *)
Definition created_species (name : string) (s : store) : Species.t :=
  Species.Build (next_id Species.id (species s)) name.

Lemma no_exact_name (name : string) (s : store) :
  scalar (filter (fun r => (lower (Species.name r) =? lower name)%string) (species s))
  = None ->
  existsb (fun r => (Species.name r =? name)%string) (species s) = false.
Proof.
  intros Hs. destruct (existsb _ (species s)) eqn:E; [|reflexivity].
  apply existsb_exists in E as (r & Hr & He). apply String.eqb_eq in He.
  pose proof (scalar_none_filter _ _ r Hs Hr) as Hf. cbn beta in Hf.
  rewrite He, String.eqb_refl in Hf. discriminate Hf.
Qed.

Lemma create_species_rows (name : string) (w : world) :
  create_species (named name) w =
  match scalar (filter (fun r => (lower (Species.name r) =? lower name)%string)
                       (species (db w))) with
  | Some _ => (Ret (Detail "Species already exists", 409), executed (SELECT species_table) w)
  | None =>
      (Ret (SpeciesBody (species_to_dict (created_species name (db w))), 201),
       {| db := with_species (db w) (species (db w) ++ [created_species name (db w)]);
          log := ((log w ++ [SELECT species_table]) ++ [COMMIT])%list |})
  end.
Proof.
  unfold create_species, named. cbn [sp_name is_some negb].
  unfold bind, item, select, ret. cbn [db executed].
  destruct (scalar (filter (fun r => (lower (Species.name r) =? lower name)%string)
                           (species (db w)))) as [r|] eqn:Hs; [reflexivity|].
  unfold add_species. cbn [db log executed].
  now rewrite (no_exact_name name (db w) Hs).
Qed.

(** Once a species was created (201), creating a species whose name
    differs at most in the case of its letters is answered 409 and writes
    nothing. *)
Theorem create_species_twice
        (name name' : string) (b : body) (w w1 : world) :
  lower name' = lower name ->
  create_species (named name) w = (Ret (b, 201), w1) ->
  exists w2,
    create_species (named name') w1 =
      (Ret (Detail "Species already exists", 409), w2)
    /\ db w2 = db w1.
Proof.
  intros Hlow Hcreate. rewrite create_species_rows in Hcreate.
  destruct (scalar (filter (fun r => (lower (Species.name r) =? lower name)%string)
                           (species (db w)))) as [r|]; [discriminate Hcreate|].
  injection Hcreate as _ <-.
  exists (executed (SELECT species_table)
            {| db := with_species (db w) (species (db w) ++ [created_species name (db w)]);
               log := ((log w ++ [SELECT species_table]) ++ [COMMIT])%list |}).
  rewrite create_species_rows. cbn [db with_species species].
  destruct (scalar_filter_present
              (fun r => (lower (Species.name r) =? lower name')%string)
              (species (db w) ++ [created_species name (db w)])
              (created_species name (db w))) as [r Hr].
  - apply in_app_iff. right. now left.
  - cbn [created_species Species.name]. rewrite Hlow. apply String.eqb_refl.
  - rewrite Hr. split; reflexivity.
Qed.

Lemma create_species_twice_witness :
  exists w2,
    create_species (named "canine")
      (snd (create_species (named "Canine") (Reference.fresh Reference.empty_store))) =
      (Ret (Detail "Species already exists", 409), w2)
    /\ db w2 =
       db (snd (create_species (named "Canine") (Reference.fresh Reference.empty_store))).
Proof.
  apply (create_species_twice "Canine" "canine"
           (SpeciesBody {| sd_id := 1; sd_name := "Canine" |})
           (Reference.fresh Reference.empty_store)).
  - reflexivity.
  - reflexivity.
Defined.

(** A species that [create_species] answered with 201 carries the name of
    the request and can be fetched: [get_one_species] for the id of the
    answer returns the same dictionary with status 200. *)
Theorem get_species_after_create
        (name : string) (d : species_dict) (w w1 : world) :
  create_species (named name) w = (Ret (SpeciesBody d, 201), w1) ->
  sd_name d = name /\
  get_one_species (sd_id d) w1 =
    (Ret (SpeciesBody d, 200), executed (SELECT species_table) w1).
Proof.
  intros Hcreate. rewrite create_species_rows in Hcreate.
  destruct (scalar (filter (fun r => (lower (Species.name r) =? lower name)%string)
                           (species (db w)))) as [r|]; [discriminate Hcreate|].
  injection Hcreate as <- <-. split; [reflexivity|].
  unfold get_one_species, bind, select. cbn [db executed with_species species].
  cbn [species_to_dict sd_id].
  rewrite (fresh_key_selected Species.id (species (db w))
             (created_species name (db w)) eq_refl).
  reflexivity.
Qed.

Lemma get_species_after_create_witness :
  sd_name {| sd_id := 1; sd_name := "Canine" |} = "Canine" /\
  get_one_species (sd_id {| sd_id := 1; sd_name := "Canine" |})
    (snd (create_species (named "Canine") (Reference.fresh Reference.empty_store))) =
    (Ret (SpeciesBody {| sd_id := 1; sd_name := "Canine" |}, 200),
     executed (SELECT species_table)
       (snd (create_species (named "Canine") (Reference.fresh Reference.empty_store)))).
Proof.
  apply (get_species_after_create "Canine" {| sd_id := 1; sd_name := "Canine" |}
           (Reference.fresh Reference.empty_store)).
  reflexivity.
Defined.

(** No two species share a name up to case, and no two share an id. *)
Definition species_unique (s : store) : Prop :=
  NoDup (map (fun r => lower (Species.name r)) (species s)) /\
  NoDup (map Species.id (species s)).

(** Whatever the body and however the request ends, [create_species]
    keeps the names of the species table distinct up to case and its keys
    unique. *)
Theorem create_species_keeps_table_unique (data : species_data) (w : world) :
  species_unique (db w) -> species_unique (db (snd (create_species data w))).
Proof.
  intros [Hnames Hids]. destruct data as [[name|]]; [|now split].
  change {| sp_name := Some name |} with (named name). rewrite create_species_rows.
  destruct (scalar (filter (fun r => (lower (Species.name r) =? lower name)%string)
                           (species (db w)))) as [r|] eqn:Hs; [now split|].
  unfold species_unique. cbn [snd db with_species species]. split.
  - rewrite map_app. apply NoDup_snoc; [exact Hnames|].
    intros Hin. apply in_map_iff in Hin as (r & Hr & Hin).
    pose proof (scalar_none_filter _ _ r Hs Hin) as Hf. cbn beta in Hf.
    cbn [created_species Species.name] in Hr.
    rewrite Hr, String.eqb_refl in Hf. discriminate Hf.
  - now apply fresh_key_unique.
Qed.

Lemma create_species_keeps_table_unique_witness :
  species_unique (db (snd (create_species (named "Feline") (Reference.fresh rex_store)))).
Proof.
  apply create_species_keeps_table_unique.
  split; repeat constructor; intros [].
Defined.

Lemma update_species_rows (species_id : Z) (name : string) (w : world) :
  update_species species_id (named name) w =
  match scalar (filter (fun s => Species.id s =? species_id) (species (db w))) with
  | None => (Raise Py.AttributeError, executed (SELECT species_table) w)
  | Some sp =>
      if existsb (fun r => negb (Species.id r =? Species.id sp)
                           && (Species.name r =? name)%string) (species (db w))
      then (Raise Py.IntegrityError, executed (SELECT species_table) w)
      else
        (Ret (SpeciesBody {| sd_id := Species.id sp; sd_name := name |}, 200),
         {| db := with_species (db w)
                    (map (fun r => if Species.id r =? Species.id sp
                                   then Species.Build (Species.id sp) name else r)
                         (species (db w)));
            log := ((log w ++ [SELECT species_table]) ++ [COMMIT])%list |})
  end.
Proof.
  unfold update_species, named. cbn [sp_name is_some negb].
  unfold bind at 1. unfold select. cbn [db executed].
  destruct (scalar (filter (fun s => Species.id s =? species_id) (species (db w))))
    as [sp|]; [|reflexivity].
  unfold bind, item, ret, save_species, commit.
  cbn [db log executed Species.id Species.name].
  now destruct (existsb _ (species (db w))).
Qed.

(** Renaming a stored species to a name that another species already has
    (letter for letter) is not answered with a response: the unique
    constraint of the table refuses the commit, the handler ends with an
    uncaught [IntegrityError], and no row is changed. *)
Theorem update_species_taken_name (sp other : Species.t) (w : world) :
  NoDup (map Species.id (species (db w))) ->
  In sp (species (db w)) ->
  In other (species (db w)) ->
  Species.id other <> Species.id sp ->
  update_species (Species.id sp) (named (Species.name other)) w =
  (Raise Py.IntegrityError, executed (SELECT species_table) w).
Proof.
  intros Hnd Hsp Hother Hne.
  rewrite update_species_rows, (unique_key_scalar Species.id _ sp Hnd Hsp).
  replace (existsb _ (species (db w))) with true; [reflexivity|].
  symmetry. apply existsb_exists. exists other. split; [exact Hother|].
  apply Z.eqb_neq in Hne. now rewrite Hne, String.eqb_refl.
Qed.

Definition two_species : store :=
  {| users := []; owners := [];
     species := [Species.Build 1 "Canine"; Species.Build 2 "Feline"];
     pets := [] |}.

Lemma update_species_taken_name_witness :
  update_species 2 (named "Canine") (Reference.fresh two_species) =
  (Raise Py.IntegrityError, executed (SELECT species_table) (Reference.fresh two_species)).
Proof.
  apply (update_species_taken_name (Species.Build 2 "Feline") (Species.Build 1 "Canine")
           (Reference.fresh two_species)).
  - repeat constructor; cbn; intuition discriminate.
  - right. now left.
  - now left.
  - discriminate.
Defined.

(** Renaming a stored species to a name that no other species has letter
    for letter is answered 200 with the id and the new name; the row keeps
    its id and the other rows are as before.  The test is exact: when
    another species has the name up to case only, the rename is accepted
    as well, and the names of the table are then no longer distinct up to
    case, which [create_species] would have refused. *)
Theorem update_species_renames (sp : Species.t) (name : string) (w : world) :
  NoDup (map Species.id (species (db w))) ->
  In sp (species (db w)) ->
  (forall r, In r (species (db w)) -> Species.id r <> Species.id sp ->
             Species.name r <> name) ->
  exists w',
    update_species (Species.id sp) (named name) w =
      (Ret (SpeciesBody {| sd_id := Species.id sp; sd_name := name |}, 200), w')
    /\ species (db w') =
         map (fun r => if Species.id r =? Species.id sp
                       then Species.Build (Species.id sp) name else r)
             (species (db w))
    /\ pets (db w') = pets (db w)
    /\ (forall other,
           In other (species (db w)) ->
           Species.id other <> Species.id sp ->
           lower (Species.name other) = lower name ->
           ~ species_unique (db w')).
Proof.
  intros Hnd Hsp Hfree. eexists.
  rewrite update_species_rows, (unique_key_scalar Species.id _ sp Hnd Hsp).
  replace (existsb _ (species (db w))) with false.
  - split; [reflexivity|]. cbn [db with_species species pets].
    split; [reflexivity|]. split; [reflexivity|].
    intros other Hother Hne Hlow [Hnames _].
    cbn [db with_species species] in Hnames.
    revert Hnames.
    apply (repeated_image (fun r => lower (Species.name r)) _ other
             (Species.Build (Species.id sp) name)).
    + apply in_map_iff. exists other. apply Z.eqb_neq in Hne. now rewrite Hne.
    + apply in_map_iff. exists sp. now rewrite Z.eqb_refl.
    + intros H. apply Hne. now rewrite H.
    + exact Hlow.
  - symmetry. destruct (existsb _ (species (db w))) eqn:E; [|reflexivity].
    apply existsb_exists in E as (r & Hr & He).
    apply andb_true_iff in He as [Hid Hname].
    apply negb_true_iff, Z.eqb_neq in Hid. apply String.eqb_eq in Hname.
    now destruct (Hfree r Hr Hid).
Qed.

Lemma update_species_renames_witness :
  exists w',
    update_species 2 (named "canine") (Reference.fresh two_species) =
      (Ret (SpeciesBody {| sd_id := 2; sd_name := "canine" |}, 200), w')
    /\ species (db w') =
         map (fun r => if Species.id r =? 2 then Species.Build 2 "canine" else r)
             (species two_species)
    /\ pets (db w') = pets two_species
    /\ (forall other,
           In other (species two_species) ->
           Species.id other <> 2 ->
           lower (Species.name other) = lower "canine" ->
           ~ species_unique (db w')).
Proof.
  apply (update_species_renames (Species.Build 2 "Feline") "canine"
           (Reference.fresh two_species)).
  - repeat constructor; cbn; intuition discriminate.
  - right. now left.
  - intros r [<-|[<-|[]]] Hid; [discriminate | now destruct Hid].
Defined.

(** *** Owners *)

Definition new_owner (first_name last_name phone mobile email : string) : owner_data :=
  {| ow_first_name := Some first_name;
     ow_last_name := Some last_name;
     ow_phone := Some phone;
     ow_mobile := Some mobile;
     ow_email := Some email |}.

(** The row that [create_owner] writes. *)
Definition created_owner (first_name last_name phone mobile email : string)
           (s : store) : Owner.t :=
  Owner.Build (next_id Owner.id (owners s)) first_name last_name phone mobile email.

Lemma no_exact_email (email : string) (s : store) :
  scalar (filter (fun o => (lower (Owner.email o) =? lower email)%string) (owners s))
  = None ->
  existsb (fun r => (Owner.email r =? email)%string) (owners s) = false.
Proof.
  intros Hs. destruct (existsb _ (owners s)) eqn:E; [|reflexivity].
  apply existsb_exists in E as (r & Hr & He). apply String.eqb_eq in He.
  pose proof (scalar_none_filter _ _ r Hs Hr) as Hf. cbn beta in Hf.
  rewrite He, String.eqb_refl in Hf. discriminate Hf.
Qed.

Lemma create_owner_rows
      (first_name last_name phone mobile email : string) (w : world) :
  create_owner (new_owner first_name last_name phone mobile email) w =
  match scalar (filter (fun o => (lower (Owner.email o) =? lower email)%string)
                       (owners (db w))) with
  | Some _ =>
      (Ret (Detail ("owner with email " ++ email ++ " already exists"), 409),
       executed (SELECT owner_table) w)
  | None =>
      (d <- owner_to_dict (created_owner first_name last_name phone mobile email (db w)) ;;
       ret (OwnerBody d, 201))
        {| db := with_owners (db w)
                   (owners (db w)
                      ++ [created_owner first_name last_name phone mobile email (db w)]);
           log := ((log w ++ [SELECT owner_table]) ++ [COMMIT])%list |}
  end.
Proof.
  unfold create_owner, new_owner.
  cbn [find owner_required_fields owner_data_has String.eqb Ascii.eqb Bool.eqb
       is_some negb ow_first_name ow_last_name ow_phone ow_mobile ow_email].
  unfold bind at 1 2. unfold item at 1. unfold ret at 1. unfold select. cbn [db executed].
  destruct (scalar (filter (fun o => (lower (Owner.email o) =? lower email)%string)
                           (owners (db w)))) as [o|] eqn:Hs; [reflexivity|].
  unfold bind at 1 2 3 4 5. unfold item, ret at 1 2 3 4.
  unfold add_owner. cbn [db log executed].
  now rewrite (no_exact_email email (db w) Hs).
Qed.

(** Creating an owner under an email that a stored owner has up to the
    case of its letters is answered 409, the message quoting the email of
    the request, and nothing is written. *)
Theorem create_owner_conflict
        (first_name last_name phone mobile email : string) (o : Owner.t) (w : world) :
  In o (owners (db w)) ->
  lower (Owner.email o) = lower email ->
  create_owner (new_owner first_name last_name phone mobile email) w =
    (Ret (Detail ("owner with email " ++ email ++ " already exists"), 409),
     executed (SELECT owner_table) w)
  /\ db (executed (SELECT owner_table) w) = db w.
Proof.
  intros Hin Hlow. rewrite create_owner_rows.
  destruct (scalar_filter_present
              (fun r => (lower (Owner.email r) =? lower email)%string)
              (owners (db w)) o Hin) as [r ->].
  - rewrite Hlow. apply String.eqb_refl.
  - now split.
Qed.

Lemma create_owner_conflict_witness :
  create_owner (new_owner "Bob" "Ray" "3" "4" "ANN@example.org") (Reference.fresh rex_store) =
    (Ret (Detail ("owner with email " ++ "ANN@example.org" ++ " already exists"), 409),
     executed (SELECT owner_table) (Reference.fresh rex_store))
  /\ db (executed (SELECT owner_table) (Reference.fresh rex_store)) = rex_store.
Proof.
  apply (create_owner_conflict "Bob" "Ray" "3" "4" "ANN@example.org"
           (Owner.Build 1 "Ann" "Lee" "1" "2" "ann@example.org")
           (Reference.fresh rex_store)).
  - now left.
  - reflexivity.
Defined.

(** Every pet refers to a stored owner. *)
Definition pets_have_owners (s : store) : Prop :=
  forall p, In p (pets s) -> exists o, In o (owners s) /\ Owner.id o = Pet.owner_id p.

(** Creating an owner under an email that no stored owner has up to case
    is answered 201 with the dictionary of the new owner; the owner gets a
    key above all stored ones and, every pet referring to a stored owner,
    starts with no pets.  The owner table gains exactly that row. *)
Theorem create_owner_created
        (first_name last_name phone mobile email : string) (w : world) :
  (forall o, In o (owners (db w)) -> lower (Owner.email o) <> lower email) ->
  pets_have_owners (db w) ->
  exists (key : Z) (w' : world),
    create_owner (new_owner first_name last_name phone mobile email) w =
      (Ret (OwnerBody {| od_id := key; od_first_name := first_name;
                         od_last_name := last_name; od_phone := phone;
                         od_mobile := mobile; od_email := email; od_pets := [] |},
            201), w')
    /\ (forall o, In o (owners (db w)) -> Owner.id o < key)
    /\ owners (db w') =
         (owners (db w) ++ [Owner.Build key first_name last_name phone mobile email])%list
    /\ pets (db w') = pets (db w).
Proof.
  intros Hnew Href.
  exists (next_id Owner.id (owners (db w))). eexists.
  rewrite create_owner_rows.
  rewrite scalar_filter_absent.
  2: { intros o Ho. apply String.eqb_neq. now apply Hnew. }
  unfold bind at 1. unfold owner_to_dict. unfold bind at 1. unfold select.
  cbn [db executed with_owners pets created_owner Owner.id].
  replace (filter _ (pets (db w))) with (@nil Pet.t).
  - cbn [mapM]. unfold bind, ret.
    cbn [Owner.first_name Owner.last_name Owner.phone Owner.mobile Owner.email].
    split; [reflexivity|]. cbn [db with_owners owners pets]. repeat split.
    intros o Ho. apply (next_id_above Owner.id (owners (db w)) o Ho).
  - symmetry. apply filter_nil_iff. intros p Hp. apply Z.eqb_neq.
    destruct (Href p Hp) as (o & Ho & <-).
    pose proof (next_id_above Owner.id (owners (db w)) o Ho). lia.
Qed.

Lemma create_owner_created_witness :
  exists (key : Z) (w' : world),
    create_owner (new_owner "Bob" "Ray" "3" "4" "bob@example.org")
                 (Reference.fresh rex_store) =
      (Ret (OwnerBody {| od_id := key; od_first_name := "Bob";
                         od_last_name := "Ray"; od_phone := "3";
                         od_mobile := "4"; od_email := "bob@example.org";
                         od_pets := [] |}, 201), w')
    /\ (forall o, In o (owners rex_store) -> Owner.id o < key)
    /\ owners (db w') =
         (owners rex_store ++ [Owner.Build key "Bob" "Ray" "3" "4" "bob@example.org"])%list
    /\ pets (db w') = pets rex_store.
Proof.
  apply (create_owner_created "Bob" "Ray" "3" "4" "bob@example.org"
           (Reference.fresh rex_store)).
  - intros o [<-|[]]. discriminate.
  - intros p [<-|[]]. eexists. split; [now left | reflexivity].
Defined.

(** The pets of an owner, in table order. *)
Definition pets_of (owner_id : Z) (s : store) : list Pet.t :=
  filter (fun p => Pet.owner_id p =? owner_id) (pets s).

Lemma owner_to_dict_all (owner : Owner.t) (w : world) :
  (forall p, In p (pets_of (Owner.id owner) (db w)) -> pet_dict_of (db w) p <> None) ->
  exists ds w',
    owner_to_dict owner w =
      (Ret {| od_id := Owner.id owner;
              od_first_name := Owner.first_name owner;
              od_last_name := Owner.last_name owner;
              od_phone := Owner.phone owner;
              od_mobile := Owner.mobile owner;
              od_email := Owner.email owner;
              od_pets := ds |}, w')
    /\ db w' = db w
    /\ map Some ds = map (pet_dict_of (db w)) (pets_of (Owner.id owner) (db w)).
Proof.
  intros Hall. unfold owner_to_dict. unfold bind at 1. unfold select.
  cbn [db executed]. fold (pets_of (Owner.id owner) (db w)).
  destruct (mapM_pet_to_dict_all (pets_of (Owner.id owner) (db w))
              (executed (SELECT pet_table) w) Hall) as (ds & w' & Hm & Hdb & Hds).
  exists ds, w'. unfold bind, ret. rewrite Hm. repeat split; assumption.
Qed.

Lemma get_owner_rows (owner_id : Z) (w : world) :
  get_owner owner_id w =
  match scalar (filter (fun o => owner_id =? Owner.id o) (owners (db w))) with
  | None => (Ret (Detail "Owner not found", 404), executed (SELECT owner_table) w)
  | Some owner =>
      (d <- owner_to_dict owner ;; ret (OwnerBody d, 200))
        (executed (SELECT owner_table) w)
  end.
Proof.
  unfold get_owner. unfold bind at 1. unfold select. cbn [db executed].
  now destruct (scalar (filter (fun o => owner_id =? Owner.id o) (owners (db w)))).
Qed.

(** [get_owner] for a stored owner whose pets all have their species row
    is answered 200 with the columns of the owner and, nested, the
    dictionaries of exactly the pets that refer to the owner, in table
    order.  For an id that no owner has it is answered 404. *)
Theorem get_owner_lists_pets (w : world) :
  (forall owner,
      NoDup (map Owner.id (owners (db w))) ->
      In owner (owners (db w)) ->
      (forall p, In p (pets_of (Owner.id owner) (db w)) -> pet_dict_of (db w) p <> None) ->
      exists ds w',
        get_owner (Owner.id owner) w =
          (Ret (OwnerBody {| od_id := Owner.id owner;
                             od_first_name := Owner.first_name owner;
                             od_last_name := Owner.last_name owner;
                             od_phone := Owner.phone owner;
                             od_mobile := Owner.mobile owner;
                             od_email := Owner.email owner;
                             od_pets := ds |}, 200), w')
        /\ map Some ds = map (pet_dict_of (db w)) (pets_of (Owner.id owner) (db w)))
  /\
  (forall owner_id,
      owner_absent owner_id (db w) ->
      get_owner owner_id w =
        (Ret (Detail "Owner not found", 404), executed (SELECT owner_table) w)).
Proof.
  split.
  - intros owner Hnd Hin Hall. rewrite get_owner_rows.
    replace (filter (fun o => Owner.id owner =? Owner.id o) (owners (db w)))
      with (filter (fun o => Owner.id o =? Owner.id owner) (owners (db w)))
      by (apply filter_ext; intros o; apply Z.eqb_sym).
    rewrite (unique_key_scalar Owner.id _ owner Hnd Hin).
    destruct (owner_to_dict_all owner (executed (SELECT owner_table) w) Hall)
      as (ds & w' & Hd & _ & Hds).
    exists ds, w'. unfold bind, ret. rewrite Hd. now split.
  - intros owner_id Habs. rewrite get_owner_rows, scalar_filter_absent; [reflexivity|].
    intros o Ho. apply Z.eqb_neq. intros H. now apply (Habs o Ho).
Qed.

Lemma get_owner_lists_pets_witness :
  (exists ds w',
      get_owner 1 (Reference.fresh two_pets) =
        (Ret (OwnerBody {| od_id := 1; od_first_name := "Ann"; od_last_name := "Lee";
                           od_phone := "1"; od_mobile := "2";
                           od_email := "ann@example.org"; od_pets := ds |}, 200), w')
      /\ map Some ds = map (pet_dict_of two_pets) (pets_of 1 two_pets))
  /\
  get_owner 5 (Reference.fresh two_pets) =
    (Ret (Detail "Owner not found", 404),
     executed (SELECT owner_table) (Reference.fresh two_pets)).
Proof.
  split.
  - apply (proj1 (get_owner_lists_pets (Reference.fresh two_pets))
                 (Owner.Build 1 "Ann" "Lee" "1" "2" "ann@example.org")).
    + repeat constructor. intros [].
    + now left.
    + intros p [<-|[<-|[]]]; discriminate.
  - apply (proj2 (get_owner_lists_pets (Reference.fresh two_pets)) 5).
    intros o [<-|[]]. discriminate.
Defined.

(** A body with the five fields and, when [key] is given, the id key. *)
Definition owner_update (key : option Z)
           (first_name last_name phone mobile email : string) : owner_update_data :=
  {| ou_fields := new_owner first_name last_name phone mobile email; ou_id := key |}.

(** The row that [update_owner] writes over [owner]. *)
Definition updated_owner (key : option Z)
           (first_name last_name phone mobile email : string) (owner : Owner.t) : Owner.t :=
  Owner.Build (setattr (Owner.id owner) key) first_name last_name phone mobile email.

Lemma update_owner_rows
      (owner_id : Z) (key : option Z)
      (first_name last_name phone mobile email : string)
      (owner : Owner.t) (w : world) :
  scalar (filter (fun o => Owner.id o =? owner_id) (owners (db w))) = Some owner ->
  update_owner owner_id (owner_update key first_name last_name phone mobile email) w =
  if key_taken Owner.id (Owner.id owner) (setattr (Owner.id owner) key) (owners (db w))
  then (Raise Py.IntegrityError, executed (SELECT owner_table) w)
  else if existsb (fun r => negb (Owner.id r =? Owner.id owner)
                            && (Owner.email r =? email)%string) (owners (db w))
  then (Raise Py.IntegrityError, executed (SELECT owner_table) w)
  else
    (d <- owner_to_dict
            (updated_owner key first_name last_name phone mobile email owner) ;;
     ret (OwnerBody d, 200))
      {| db := with_owners (db w)
                 (map (fun r => if Owner.id r =? Owner.id owner
                                then updated_owner key first_name last_name phone
                                       mobile email owner
                                else r)
                      (owners (db w)));
         log := ((log w ++ [SELECT owner_table]) ++ [COMMIT])%list |}.
Proof.
  intros Hs. unfold update_owner. unfold bind at 1. unfold select. cbn [db executed].
  rewrite Hs.
  cbn [find owner_required_fields owner_data_has owner_update new_owner ou_fields ou_id
       String.eqb Ascii.eqb Bool.eqb is_some negb
       ow_first_name ow_last_name ow_phone ow_mobile ow_email].
  cbn [setattr].
  fold (updated_owner key first_name last_name phone mobile email owner).
  unfold bind at 1. unfold save_owner, commit, key_taken.
  cbn [db log executed updated_owner Owner.id Owner.email].
  destruct (existsb (fun r => negb (Owner.id r =? Owner.id owner)
                              && (Owner.id r =? setattr (Owner.id owner) key))
                    (owners (db w))); [reflexivity|].
  now destruct (existsb _ (owners (db w))).
Qed.

(** Giving a stored owner the email that another stored owner has, letter
    for letter, is not answered with a response, whether or not the body
    carries an id: a unique constraint of the table refuses the commit, the
    handler ends with an uncaught [IntegrityError], and no row is
    changed. *)
Theorem update_owner_taken_email
        (key : option Z) (first_name last_name phone mobile : string)
        (owner other : Owner.t) (w : world) :
  NoDup (map Owner.id (owners (db w))) ->
  In owner (owners (db w)) ->
  In other (owners (db w)) ->
  Owner.id other <> Owner.id owner ->
  update_owner (Owner.id owner)
    (owner_update key first_name last_name phone mobile (Owner.email other)) w =
  (Raise Py.IntegrityError, executed (SELECT owner_table) w).
Proof.
  intros Hnd Hin Hother Hne.
  rewrite (update_owner_rows _ key _ _ _ _ _ owner w
             (unique_key_scalar Owner.id _ owner Hnd Hin)).
  destruct (key_taken Owner.id _ _ (owners (db w))); [reflexivity|].
  replace (existsb _ (owners (db w))) with true; [reflexivity|].
  symmetry. apply existsb_exists. exists other. split; [exact Hother|].
  apply Z.eqb_neq in Hne. now rewrite Hne, String.eqb_refl.
Qed.

Definition two_owners : store :=
  {| users := [];
     owners := [Owner.Build 1 "Ann" "Lee" "1" "2" "ann@example.org";
                Owner.Build 2 "Bob" "Ray" "3" "4" "bob@example.org"];
     species := [Species.Build 2 "Canine"];
     pets := [Pet.Build 1 "Rex" 1 3 2; Pet.Build 2 "Max" 2 5 2] |}.

Lemma update_owner_taken_email_witness :
  update_owner 2 (new_owner "Bob" "Ray" "3" "4" "ann@example.org")
               (Reference.fresh two_owners) =
  (Raise Py.IntegrityError, executed (SELECT owner_table) (Reference.fresh two_owners)).
Proof.
  apply (update_owner_taken_email None "Bob" "Ray" "3" "4"
           (Owner.Build 2 "Bob" "Ray" "3" "4" "bob@example.org")
           (Owner.Build 1 "Ann" "Lee" "1" "2" "ann@example.org")
           (Reference.fresh two_owners)).
  - repeat constructor; cbn; intuition discriminate.
  - right. now left.
  - now left.
  - discriminate.
Defined.


